(** * lib/customers.js: customer compliance state

    A shallow embedding of [lib/customers.js] (lamassu-server) and the
    properties of [add], [get], [update], [getById], [getDailyVolume],
    [addOverrideUser], [addComplianceOverrides], [format] and [batch].

    JavaScript objects are association lists in property-enumeration order
    (assignment to an existing key keeps its place, a new key goes last);
    a promise is its settled outcome; the database is a record of tables,
    threaded through the calls that write to it.  What the module takes from
    other packages and cannot be told from its text (lodash's [snakeCase],
    [camelCase] of camelize, the coercions of [>], the anonymous customer's
    id, the defaults and constraints of the customers table) is a parameter
    of the development. *)

From Stdlib Require Import List String Ascii ZArith Bool Lia Sorted Permutation.
From Stdlib Require Import QArith Qcanon.
Import ListNotations.

Local Open Scope string_scope.
Local Open Scope list_scope.
Local Open Scope Z_scope.

(** ** JavaScript values *)

(** The scalar values held by customer rows and update payloads.  Numbers
    are the integer-valued ones; a [Date] is its time value in milliseconds.
    Nested objects and arrays are not modelled. *)
Inductive jsval : Type :=
| VUndefined
| VNull
| VBool (b : bool)
| VNum (n : Z)
| VStr (s : string)
| VDate (ms : Z).

(** ToBoolean, the test of [if (x)], [!x] and [x ? a : b]. *)
Definition truthy (v : jsval) : bool :=
  match v with
  | VUndefined | VNull => false
  | VBool b => b
  | VNum n => negb (n =? 0)
  | VStr s => negb (s =? "")%string
  | VDate _ => true
  end.

(** [x != null] is false exactly for [null] and [undefined]. *)
Definition nullish (v : jsval) : bool :=
  match v with
  | VUndefined | VNull => true
  | _ => false
  end.

(** ToNumber of the operands of a relational comparison, after ToPrimitive
    with hint Number (a Date gives its time value).  [None] stands for an
    operand that is converted through its string form. *)
Inductive number : Type :=
| NaN
| Fin (z : Z).

Definition ToNumber (v : jsval) : option number :=
  match v with
  | VUndefined => Some NaN
  | VNull => Some (Fin 0)
  | VBool b => Some (Fin (if b then 1 else 0))
  | VNum n => Some (Fin n)
  | VDate ms => Some (Fin ms)
  | VStr _ => None
  end.

(** ** Objects *)

Module Obj.
Section WithCell.
Context {V : Type}.

(** Own enumerable properties, in enumeration order (that of assignment, for
    keys that are not array indices, as column and field names are not). *)
Definition t : Type := list (string * V).

(** [o[k]]; [None] is [undefined] for a missing property. *)
Fixpoint get (o : t) (k : string) : option V :=
  match o with
  | [] => None
  | (k', v) :: o' => if (k =? k')%string then Some v else get o' k
  end.

(** [o[k] = v]. *)
Fixpoint put (o : t) (k : string) (v : V) : t :=
  match o with
  | [] => [(k, v)]
  | (k', v') :: o' =>
      if (k =? k')%string then (k, v) :: o' else (k', v') :: put o' k v
  end.
End WithCell.
Arguments t : clear implicits.
End Obj.

Definition obj : Type := Obj.t jsval.

(** [customer[field]] on an object of plain values. *)
Definition prop (o : obj) (k : string) : jsval :=
  match Obj.get o k with
  | Some v => v
  | None => VUndefined
  end.

(** ** The lodash/fp functions the module uses *)

Module Lodash.
Section Objects.
Context {V : Type}.

Definition keys (o : Obj.t V) : list string := map fst o.

Definition omit (props : list string) (o : Obj.t V) : Obj.t V :=
  filter (fun kv => negb (existsb (String.eqb (fst kv)) props)) o.

(** The result is built by assignment, key by key: of two keys with the
    same image the later one's value stays. *)
Definition mapKeys (iteratee : string -> string) (o : Obj.t V) : Obj.t V :=
  fold_left (fun result kv => Obj.put result (iteratee (fst kv)) (snd kv)) o [].

Definition set (k : string) (v : V) (o : Obj.t V) : Obj.t V := Obj.put o k v.
End Objects.

(** [_.compact] on a list whose falsy entries are [null]. *)
Fixpoint compact {A : Type} (l : list (option A)) : list A :=
  match l with
  | [] => []
  | Some a :: l' => a :: compact l'
  | None :: l' => compact l'
  end.

Section Extremum.
Context {A : Type}.
Variable iteratee : A -> jsval.
Variable comparator : jsval -> jsval -> bool.

(** The loop of [baseExtremum]; [acc] is the pair [computed], [result],
    [None] while [computed] is still [undefined].  No value of [jsval] is
    NaN or a symbol, so a first candidate is taken when it is not
    nullish. *)
Fixpoint baseExtremum (array : list A) (acc : option (jsval * A)) : option A :=
  match array with
  | [] => option_map snd acc
  | value :: rest =>
      let current := iteratee value in
      let take :=
        negb (nullish current) &&
        match acc with
        | None => true
        | Some (computed, _) => comparator current computed
        end in
      baseExtremum rest (if take then Some (current, value) else acc)
  end.
End Extremum.
End Lodash.

(** ** Outcomes *)

Inductive error : Type :=
| QueryResultError_noData
| QueryResultError_multiple
| TypeError
| NoColumnsError
| StoreError.

(** What a synchronous call does. *)
Inductive completion (A : Type) : Type :=
| Return (a : A)
| Throw (e : error).
Arguments Return {A} a.
Arguments Throw {A} e.

(** A settled promise. *)
Inductive promise (A : Type) : Type :=
| Resolved (a : A)
| Rejected (e : error).
Arguments Resolved {A} a.
Arguments Rejected {A} e.

(** [p.then(f)] for a handler that returns a plain value or throws. *)
Definition then_ {A B : Type} (p : promise A) (f : A -> completion B) : promise B :=
  match p with
  | Resolved a =>
      match f a with
      | Return b => Resolved b
      | Throw e => Rejected e
      end
  | Rejected e => Rejected e
  end.

(** [p.then(f)] for a handler that returns a promise. *)
Definition then_promise {A B : Type} (p : promise A) (f : A -> promise B) : promise B :=
  match p with
  | Resolved a => f a
  | Rejected e => Rejected e
  end.

(** ** Key casing, for the examples *)

Definition is_upper (c : ascii) : bool :=
  (Nat.leb 65 (nat_of_ascii c) && Nat.leb (nat_of_ascii c) 90)%bool.

Definition is_lower (c : ascii) : bool :=
  (Nat.leb 97 (nat_of_ascii c) && Nat.leb (nat_of_ascii c) 122)%bool.

Definition is_digit (c : ascii) : bool :=
  (Nat.leb 48 (nat_of_ascii c) && Nat.leb (nat_of_ascii c) 57)%bool.

(** [\w] *)
Definition is_word (c : ascii) : bool :=
  (is_upper c || is_lower c || is_digit c || Ascii.eqb c "_")%bool.

Definition toUpperCase (c : ascii) : ascii :=
  if is_lower c then ascii_of_nat (nat_of_ascii c - 32) else c.

Definition toLowerCase (c : ascii) : ascii :=
  if is_upper c then ascii_of_nat (nat_of_ascii c + 32) else c.

(** [camelCase] of the [camelize] package:
    [str.replace(/[_.-](\w|$)/g, (_, x) => x.toUpperCase())]. *)
Fixpoint camelCase_camelize (str : string) : string :=
  match str with
  | EmptyString => EmptyString
  | String c rest =>
      if (Ascii.eqb c "_" || Ascii.eqb c "." || Ascii.eqb c "-")%bool then
        match rest with
        | EmptyString => EmptyString
        | String x rest' =>
            if is_word x then String (toUpperCase x) (camelCase_camelize rest')
            else String c (camelCase_camelize rest)
        end
      else String c (camelCase_camelize rest)
  end.

(** What [_.snakeCase] makes of a key of ASCII letters written in lower camel
    case or in lower snake case: an underscore before each capital, and the
    capital in lower case. *)
Fixpoint snakeCase_letters (str : string) : string :=
  match str with
  | EmptyString => EmptyString
  | String c rest =>
      if is_upper c then String "_" (String (toLowerCase c) (snakeCase_letters rest))
      else String c (snakeCase_letters rest)
  end.

(** ** Status *)

Record milestone : Type := { label : string; value : jsval }.

Section Customers.

Set Default Proof Using "Type".

(** [_.snakeCase] of lodash, applied to the keys of an update's payload. *)
Variable snakeCase : string -> string.
(** [camelCase] of the [camelize] package, applied to every key of a
    formatted customer. *)
Variable camelCase : string -> string.
(** [a > b] for operands of which one is compared through its string form. *)
Variable gt_coerced : jsval -> jsval -> bool.
(** [anonymousCustomer.uuid] of lib/constants. *)
Variable anonymous_uuid : string.
(** The schema of the customers table, which the module does not show: the
    values that an insert made at a clock reading gives to the columns, before
    those the statement names are written; and whether a new row breaks a
    constraint of the table, given the rows it holds. *)
Variable column_defaults : Z -> obj.
Variable violates : list obj -> obj -> bool.
(** [t - interval '1 day'] as the store computes it for a timestamp with time
    zone: the same time of day one calendar day earlier in the time zone of
    the session.  That is 24 hours before [t], except across a change of the
    zone's offset, where a day has 23 or 25 hours (daylight saving). *)
Variable day_before : Z -> Z.

(** lodash's [baseGt]: [value > other]. *)
Definition baseGt (value other : jsval) : bool :=
  match ToNumber value, ToNumber other with
  | Some (Fin a), Some (Fin b) => b <? a
  | Some NaN, Some _ | Some _, Some NaN => false
  | _, _ => gt_coerced value other
  end.

Definition maxBy {A : Type} (iteratee : A -> jsval) (array : list A) : option A :=
  Lodash.baseExtremum iteratee baseGt array None.

(** [camelize] on an object whose values are scalars or Dates, which its
    walk returns as they are. *)
Definition camelize (o : obj) : obj := Lodash.mapKeys camelCase o.

Definition milestones (customer : obj) : list milestone :=
  [ {| label := "Phone"; value := prop customer "phone_at" |};
    {| label := "ID card"; value := prop customer "id_card_at" |};
    {| label := "Front facing camera"; value := prop customer "front_facing_cam_at" |};
    {| label := "ID card image"; value := prop customer "id_card_image_at" |} ].

(** [status.label] throws a TypeError when [maxBy] gave [undefined]. *)
Definition format (customer : obj) : completion obj :=
  let status := maxBy value (milestones customer) in
  match status with
  | None => Throw TypeError
  | Some status => Return (camelize (Obj.put customer "status" (VStr (label status))))
  end.

(** ** The store *)

(** A compliance override as [addComplianceOverrides] hands it to
    [complianceOverrides.add]. *)
Record ComplianceOverride : Type := {
  customerId : jsval;
  complianceType : string;
  overrideBy : jsval;
  verification : jsval
}.

(** The columns of [cash_in_txs] and [cash_out_txs] that the volume queries
    read.  [fiat] is an exact decimal, [None] for NULL; [created] is in
    milliseconds. *)
Record Tx : Type := {
  customer_id : jsval;
  fiat : option Qc;
  created : Z
}.

(** The tables, and the store's clock at the time of the call. *)
Record Db : Type := {
  customers : list obj;
  compliance_overrides : list ComplianceOverride;
  cash_in_txs : list Tx;
  cash_out_txs : list Tx;
  now : Z
}.

(** [db] is the pg-promise database object, and its query methods differ in
    the number of rows they accept: [one] is rejected unless the query gives
    exactly one row, [oneOrNone] resolves with [null] for no row and is
    rejected for several, [any] takes what comes. *)
Definition db_one {A : Type} (rows : list A) : promise A :=
  match rows with
  | [] => Rejected QueryResultError_noData
  | [row] => Resolved row
  | _ => Rejected QueryResultError_multiple
  end.

Definition db_oneOrNone {A : Type} (rows : list A) : promise (option A) :=
  match rows with
  | [] => Resolved None
  | [row] => Resolved (Some row)
  | _ => Rejected QueryResultError_multiple
  end.

Definition db_any {A : Type} (rows : list A) : promise (list A) := Resolved rows.

(** [Promise.all] of two promises. *)
Definition all2 {A B : Type} (p : promise A) (q : promise B) : promise (A * B) :=
  match p, q with
  | Resolved a, Resolved b => Resolved (a, b)
  | Rejected e, _ => Rejected e
  | _, Rejected e => Rejected e
  end.

(** A query parameter or an assigned value as pg-promise formats it:
    [undefined] is written as NULL. *)
Definition to_sql (v : jsval) : jsval :=
  match v with
  | VUndefined => VNull
  | _ => v
  end.

(** The value of a column in a stored row. *)
Definition column (row : obj) (k : string) : jsval := to_sql (prop row k).

(** [a = b] in a [where] clause, for values of one type: never true of
    NULL. *)
Definition sql_eq (a b : jsval) : bool :=
  match a, b with
  | VStr x, VStr y => (x =? y)%string
  | VNum x, VNum y => x =? y
  | VBool x, VBool y => Bool.eqb x y
  | VDate x, VDate y => x =? y
  | _, _ => false
  end.

(** [a != b] in a [where] clause: never true of NULL either. *)
Definition sql_neq (a b : jsval) : bool :=
  negb (nullish a) && negb (nullish b) && negb (sql_eq a b).

(** [sum(fiat)]: NULL inputs are skipped, and the sum of no input is NULL. *)
Fixpoint sql_sum (l : list (option Qc)) : option Qc :=
  match l with
  | [] => None
  | None :: l' => sql_sum l'
  | Some q :: l' =>
      match sql_sum l' with
      | None => Some q
      | Some s => Some (q + s)%Qc
      end
  end.

Definition coalesce (x : option Qc) (d : Qc) : Qc :=
  match x with
  | Some q => q
  | None => d
  end.

(** [customer_id=$1 and created > now() - interval '1 day'] *)
Definition in_last_day (clock : Z) (id : jsval) (tx : Tx) : bool :=
  sql_eq (customer_id tx) (to_sql id) && (day_before clock <? created tx).

(** [select coalesce(sum(fiat), 0) as total from <txs> where ...]: an
    aggregate without grouping, so one row whatever the table holds. *)
Definition select_total (clock : Z) (txs : list Tx) (id : jsval) : list Qc :=
  [ coalesce (sql_sum (map fiat (filter (in_last_day clock id) txs))) 0%Qc ].

(** Modelled from the spec: [BN] of lib/bn.js, an arbitrary-precision decimal
    made from the text of a numeric column; its value is the exact one. *)
Definition BN (total : Qc) : Qc := total.

(** Modelled from the spec: [add] of a [BN], exact decimal addition. *)
Definition BN_add (a b : Qc) : Qc := (a + b)%Qc.

Definition getDailyVolume (db : Db) (id : jsval) : promise Qc :=
  then_
    (all2 (db_one (select_total (now db) (cash_in_txs db) id))
          (db_one (select_total (now db) (cash_out_txs db) id)))
    (fun totals =>
       let '(cashInTotal, cashOutTotal) := totals in
       Return (BN_add (BN cashInTotal) cashOutTotal)).

(** A property of the record [get] returns: a value of the row, or the
    BigNumber of the daily volume. *)
Inductive cell : Type :=
| Plain (v : jsval)
| BigNumber (q : Qc).

Definition plain (o : obj) : Obj.t cell := map (fun kv => (fst kv, Plain (snd kv))) o.

(** [select id, phone from customers where phone=$1] *)
Definition select_by_phone (db : Db) (phone : jsval) : list obj :=
  map (fun c => [("id", column c "id"); ("phone", column c "phone")])
      (filter (fun c => sql_eq (column c "phone") (to_sql phone)) (customers db)).

Definition get (db : Db) (phone : jsval) : promise (option (Obj.t cell)) :=
  then_promise (db_oneOrNone (select_by_phone db phone))
    (fun customer =>
       match customer with
       | None => Resolved None
       | Some customer =>
           then_promise (getDailyVolume db (prop customer "id"))
             (fun dailyVolume =>
                Resolved (Some (Lodash.set "dailyVolume" (BigNumber dailyVolume) (plain customer))))
       end).

(** ** Update *)

Definition overrideFieldNames : list string :=
  [ "sms_override";
    "id_card_data_override";
    "id_card_photo_override";
    "front_facing_cam_override";
    "sanctions_check_override";
    "authorized_override" ].

(** The callback of the [forEach]: it writes into the object it reads. *)
Definition attribute (userToken : jsval) (customer : obj) (field : string) : obj :=
  if truthy (prop customer field)
  then Obj.put customer (field ++ "_by")%string userToken
  else customer.

(** The object returned is the object given, as the writes left it: each
    test reads what the earlier writes made of it. *)
Definition addOverrideUser (customer : obj) (userToken : jsval) : obj :=
  if negb (truthy userToken) then customer
  else fold_left (attribute userToken) overrideFieldNames customer.

(** Compliance override field mappings: name, compliance type. *)
Definition overrideFields : list (string * string) :=
  [ ("sms_override", "sms");
    ("id_card_data_override", "id_card_data");
    ("id_card_photo_override", "id_card_photo");
    ("front_facing_cam_override", "front_camera");
    ("sanctions_check_override", "sanctions");
    ("authorized_override", "authorized") ].

(** The callback of the [_.map]: the override for a field the customer holds
    with a truthy value, [null] for another. *)
Definition override_of (id : jsval) (customer : obj) (userToken : jsval)
    (field : string * string) : option ComplianceOverride :=
  if truthy (prop customer (fst field))
  then Some {| customerId := id;
               complianceType := snd field;
               overrideBy := userToken;
               verification := prop customer (fst field) |}
  else None.

(** The compliance overrides to save, [null]s dropped. *)
Definition overrides (id : jsval) (customer : obj) (userToken : jsval)
  : list ComplianceOverride :=
  Lodash.compact (map (override_of id customer userToken) overrideFields).

Definition with_overrides (db : Db) (l : list ComplianceOverride) : Db :=
  {| customers := customers db;
     compliance_overrides := l;
     cash_in_txs := cash_in_txs db;
     cash_out_txs := cash_out_txs db;
     now := now db |}.

Definition with_customers (db : Db) (l : list obj) : Db :=
  {| customers := l;
     compliance_overrides := compliance_overrides db;
     cash_in_txs := cash_in_txs db;
     cash_out_txs := cash_out_txs db;
     now := now db |}.

(** Modelled from the spec: [add] of lib/compliance_overrides.js, the
    Override Tracker Store's [createOverride]: the record is appended to the
    audit table, unless the store rejects the write ([rejects]). *)
Definition complianceOverrides_add (rejects : ComplianceOverride -> bool)
    (db : Db) (override : ComplianceOverride) : Db * promise ComplianceOverride :=
  if rejects override then (db, Rejected StoreError)
  else (with_overrides db (compliance_overrides db ++ [override]), Resolved override).

(** [l.map(override => complianceOverrides.add(override))]: every write is
    issued, whatever becomes of the others. *)
Fixpoint add_each (rejects : ComplianceOverride -> bool) (db : Db)
    (l : list ComplianceOverride) : Db * list (promise ComplianceOverride) :=
  match l with
  | [] => (db, [])
  | override :: l' =>
      let (db1, p) := complianceOverrides_add rejects db override in
      let (db2, ps) := add_each rejects db1 l' in
      (db2, p :: ps)
  end.

(** [Promise.all]. *)
Fixpoint all {A : Type} (ps : list (promise A)) : promise (list A) :=
  match ps with
  | [] => Resolved []
  | Rejected e :: _ => Rejected e
  | Resolved a :: ps' =>
      match all ps' with
      | Resolved l => Resolved (a :: l)
      | Rejected e => Rejected e
      end
  end.

Definition addComplianceOverrides (rejects : ComplianceOverride -> bool)
    (db : Db) (id : jsval) (customer : obj) (userToken : jsval)
  : Db * promise (list ComplianceOverride) :=
  let (db', ps) := add_each rejects db (overrides id customer userToken) in
  (db', all ps).

(** [Pgp.helpers.update(data, columns, 'customers')]: the assignments of the
    statement, one per column; it throws when there is no column. *)
Definition helpers_update (data : obj) (columns : list string)
  : completion (list (string * jsval)) :=
  match columns with
  | [] => Throw NoColumnsError
  | _ => Return (map (fun k => (k, to_sql (prop data k))) columns)
  end.

(** [set k1=v1, k2=v2, ...] on a row.  The schema is not modelled: a column
    that the row does not list is added to it. *)
Definition assign (sets : list (string * jsval)) (row : obj) : obj :=
  fold_left (fun row kv => Obj.put row (fst kv) (snd kv)) sets row.

(** [update customers set ... where id=$1 returning *]: the table after the
    statement and the rows it returns, for a statement that the store
    accepts with the values as [helpers.update] has written them (no
    constraint broken, no unknown column, no [$n] inside a string value,
    which [db.one] would format once more). *)
Definition update_returning (sets : list (string * jsval)) (id : jsval) (db : Db)
  : Db * list obj :=
  let hit := fun row => sql_eq (column row "id") (to_sql id) in
  (with_customers db (map (fun row => if hit row then assign sets row else row) (customers db)),
   map (assign sets) (filter hit (customers db))).

(** [customer => customer ? format(customer) : null] *)
Definition format_or_null (customer : option obj) : completion (option obj) :=
  match customer with
  | Some customer =>
      match format customer with
      | Return c => Return (Some c)
      | Throw e => Throw e
      end
  | None => Return None
  end.

Definition formattedData (data : obj) : obj :=
  Lodash.omit ["id"] (Lodash.mapKeys snakeCase data).

Definition updateData (data : obj) (userToken : jsval) : obj :=
  addOverrideUser (formattedData data) userToken.

(** The promise [addComplianceOverrides] returns is dropped: [update] goes on
    to its own statement, which reads and writes the customers table only,
    whatever becomes of the audit writes. *)
Definition update (rejects : ComplianceOverride -> bool) (db : Db)
    (id : jsval) (data : obj) (userToken : jsval)
  : Db * completion (promise (option obj)) :=
  let updateData := updateData data userToken in
  let db1 := fst (addComplianceOverrides rejects db id updateData userToken) in
  match helpers_update updateData (Lodash.keys updateData) with
  | Throw e => (db1, Throw e)
  | Return sql =>
      let (db2, rows) := update_returning sql id db1 in
      (db2, Return (then_ (db_one rows) (fun customer => format_or_null (Some customer))))
  end.

(** ** Lookup by id and listing *)

(** [select * from customers where id=$1] *)
Definition select_by_id (db : Db) (id : jsval) : list obj :=
  filter (fun c => sql_eq (column c "id") (to_sql id)) (customers db).

Definition getById (db : Db) (id : jsval) : promise (option obj) :=
  then_ (db_oneOrNone (select_by_id db id)) format_or_null.

Definition NUM_RESULTS : nat := 20.

(** [order by created desc]: NULLs come first, then later times before
    earlier ones.  A [created] that is not a Date counts as NULL. *)
Definition created_desc (a b : obj) : bool :=
  match column a "created", column b "created" with
  | VDate x, VDate y => y <=? x
  | VDate _, _ => false
  | _, _ => true
  end.

Fixpoint insert_desc (row : obj) (sorted : list obj) : list obj :=
  match sorted with
  | [] => [row]
  | r :: rest =>
      if created_desc row r then row :: r :: rest else r :: insert_desc row rest
  end.

(** Rows of equal [created] stay in table order. *)
Fixpoint order_by_created_desc (rows : list obj) : list obj :=
  match rows with
  | [] => []
  | row :: rest => insert_desc row (order_by_created_desc rest)
  end.

(** [select * from customers where id != $1 order by created desc limit $2] *)
Definition select_recent (db : Db) (exclude : jsval) (limit : nat) : list obj :=
  firstn limit
    (order_by_created_desc
       (filter (fun c => sql_neq (column c "id") (to_sql exclude)) (customers db))).

(** [_.map(format)]: the first throw ends the map. *)
Fixpoint map_format (rows : list obj) : completion (list obj) :=
  match rows with
  | [] => Return []
  | row :: rest =>
      match format row with
      | Throw e => Throw e
      | Return c =>
          match map_format rest with
          | Throw e => Throw e
          | Return cs => Return (c :: cs)
          end
      end
  end.

Definition batch (db : Db) : promise (list obj) :=
  then_ (db_any (select_recent db (VStr anonymous_uuid) NUM_RESULTS)) map_format.

(** ** Creation *)

(** [insert into customers (id, phone, phone_at) values ($1, $2, now())]:
    the row that the statement makes. *)
Definition new_customer (clock : Z) (id phone : jsval) : obj :=
  assign [("id", to_sql id); ("phone", to_sql phone); ("phone_at", VDate clock)]
         (column_defaults clock).

(** [uuid] is what [uuid.v4()] gives to this call.  The statement returns the
    row it has inserted, and is rejected by the store, the table left as it
    was, when the row breaks a constraint. *)
Definition add (uuid : string) (db : Db) (customer : obj) : Db * promise obj :=
  let row := new_customer (now db) (VStr uuid) (prop customer "phone") in
  if violates (customers db) row then (db, Rejected StoreError)
  else (with_customers db (customers db ++ [row]), db_one [row]).

(** ** Vocabulary of the statements *)




(** The attribution keys of a payload: [<field>_by] for each override field
    that the payload holds with a truthy value. *)
Definition attributed (payload : obj) (k : string) : Prop :=
  exists field,
    In field overrideFieldNames /\
    truthy (prop payload field) = true /\
    k = (field ++ "_by")%string.

(** The statement that [update] runs, when its payload has a column. *)
Definition update_sql (data : obj) (userToken : jsval) : list (string * jsval) :=
  map (fun c => (c, to_sql (prop (updateData data userToken) c)))
      (Lodash.keys (updateData data userToken)).

(** How many records of a list are of a compliance type. *)
Definition count_type (ctype : string) (l : list ComplianceOverride) : nat :=
  List.length (filter (fun o => (complianceType o =? ctype)%string) l).

(** 24 hours, in milliseconds. *)
Definition hours_24 : Z := 24 * 60 * 60 * 1000.

(** The fiat amounts of the customer's transactions of a table that were
    created after an instant, added up from zero (NULL counts for zero). *)
Fixpoint total_after (since : Z) (id : jsval) (txs : list Tx) : Qc :=
  match txs with
  | [] => 0%Qc
  | tx :: rest =>
      if sql_eq (customer_id tx) (to_sql id) && (since <? created tx)
      then (match fiat tx with Some amount => amount | None => 0%Qc end
            + total_after since id rest)%Qc
      else total_after since id rest
  end.

(** From the specification: the customer's transactions of a table that were
    created less than 24 hours ago, their fiat amounts added up from zero. *)
Fixpoint trailing_day_total (clock : Z) (id : jsval) (txs : list Tx) : Qc :=
  match txs with
  | [] => 0%Qc
  | tx :: rest =>
      if sql_eq (customer_id tx) (to_sql id) && (clock - created tx <? 24 * 60 * 60 * 1000)
      then (match fiat tx with Some amount => amount | None => 0%Qc end
            + trailing_day_total clock id rest)%Qc
      else trailing_day_total clock id rest
  end.

Definition with_cash_in (db : Db) (l : list Tx) : Db :=
  {| customers := customers db;
     compliance_overrides := compliance_overrides db;
     cash_in_txs := l;
     cash_out_txs := cash_out_txs db;
     now := now db |}.

Definition with_cash_out (db : Db) (l : list Tx) : Db :=
  {| customers := customers db;
     compliance_overrides := compliance_overrides db;
     cash_in_txs := cash_in_txs db;
     cash_out_txs := l;
     now := now db |}.

(** ** Sample data *)

(** A customer whose id card and front camera were accepted at the same
    time, after the phone. *)
Definition tie_customer : obj :=
  [ ("id", VStr "c1"); ("phone", VStr "+15550100"); ("created", VDate 1000);
    ("phone_at", VDate 1000); ("id_card_at", VDate 3000);
    ("front_facing_cam_at", VDate 3000); ("id_card_image_at", VNull) ].

(** A customer whose id card image is the latest milestone. *)
Definition image_customer : obj :=
  [ ("id", VStr "c2"); ("phone", VStr "+15550101"); ("created", VDate 2000);
    ("phone_at", VDate 2000); ("id_card_at", VDate 4000);
    ("front_facing_cam_at", VNull); ("id_card_image_at", VDate 5000) ].

(** A customer row that names its id card photo timestamp
    [id_card_photo_at], the latest of its timestamps. *)
Definition photo_customer : obj :=
  [ ("id", VStr "c3"); ("phone", VStr "+15550102"); ("created", VDate 500);
    ("phone_at", VDate 1000); ("id_card_at", VNull);
    ("front_facing_cam_at", VNull); ("id_card_photo_at", VDate 2000) ].

(** A customer row without any milestone. *)
Definition bare_customer : obj :=
  [ ("id", VStr "c4"); ("phone", VNull); ("created", VDate 100);
    ("phone_at", VNull); ("id_card_at", VNull);
    ("front_facing_cam_at", VNull); ("id_card_image_at", VNull) ].

Definition tx_of (id : string) (amount : Z) (at_ : Z) : Tx :=
  {| customer_id := VStr id; fiat := Some (Q2Qc (inject_Z amount)); created := at_ |}.

(** The clock is at 48 hours; customer c1 has cash-ins of 10 and 5 and a
    cash-out of 3 in the last day, and a cash-in of 100 at hour 0. *)
Definition sample_db : Db :=
  {| customers := [tie_customer; image_customer];
     compliance_overrides := [];
     cash_in_txs := [tx_of "c1" 100 0; tx_of "c1" 10 (40 * 3600000);
                     tx_of "c2" 7 (41 * 3600000); tx_of "c1" 5 (47 * 3600000)];
     cash_out_txs := [tx_of "c1" 3 (30 * 3600000)];
     now := 48 * 3600000 |}.

(** A schema whose columns are null by default, but for [created]. *)
Definition sample_defaults (clock : Z) : obj :=
  [ ("id", VNull); ("phone", VNull); ("created", VDate clock);
    ("phone_at", VNull); ("id_card_at", VNull);
    ("front_facing_cam_at", VNull); ("id_card_image_at", VNull) ].

(** The constraints of the sample schema: ids and phones are unique. *)
Definition sample_violates (rows : list obj) (row : obj) : bool :=
  existsb (fun r => sql_eq (column r "id") (column row "id")
                    || sql_eq (column r "phone") (column row "phone")) rows.

(** A session whose days all have 24 hours. *)
Definition day_of_24_hours (t : Z) : Z := t - 86400000.

(** A session at the end of daylight saving: the day before has 25 hours. *)
Definition day_of_25_hours (t : Z) : Z := t - 90000000.

(** The clock is at 48 hours; customer c1 has one cash-in of 10, made 24
    hours and a half ago. *)
Definition autumn_db : Db :=
  {| customers := [tie_customer];
     compliance_overrides := [];
     cash_in_txs := [tx_of "c1" 10 (48 * 3600000 - 88200000)];
     cash_out_txs := [];
     now := 48 * 3600000 |}.

(** An id that no customer of the samples has. *)
Definition unknown_id : jsval := VStr "6f1c1d8e-0000-4000-8000-000000000001".

Definition bare_db : Db :=
  {| customers := [bare_customer];
     compliance_overrides := [];
     cash_in_txs := [];
     cash_out_txs := [];
     now := 1000 |}.

(** * Properties *)

(** Propositional steps, kept from drawing on the parameters of the section. *)
Ltac prop_tauto :=
  try clear day_before; try clear violates; try clear column_defaults;
  try clear anonymous_uuid; try clear gt_coerced;
  try clear camelCase; try clear snakeCase;
  tauto.

(** ** Objects *)

Lemma get_put_eq {V : Type} (o : Obj.t V) k v : Obj.get (Obj.put o k v) k = Some v.
Proof.
  induction o as [|[k' v'] o IH]; simpl.
  - now rewrite String.eqb_refl.
  - destruct (k =? k')%string eqn:E; simpl.
    + now rewrite String.eqb_refl.
    + now rewrite E.
Qed.

Lemma get_put_neq {V : Type} (o : Obj.t V) k k' v :
  k <> k' -> Obj.get (Obj.put o k v) k' = Obj.get o k'.
Proof.
  intros Hne. induction o as [|[k0 v0] o IH]; simpl.
  - destruct (k' =? k)%string eqn:E; [|reflexivity].
    apply String.eqb_eq in E. congruence.
  - destruct (k =? k0)%string eqn:E; simpl.
    + apply String.eqb_eq in E. subst k0.
      destruct (k' =? k)%string eqn:E'; [|reflexivity].
      apply String.eqb_eq in E'. congruence.
    + now rewrite IH.
Qed.

(** ** The maximum that [maxBy] picks *)

Section FirstMaximum.
Context {A : Type}.
Variable f : A -> jsval.



Lemma baseGt_dates a b : baseGt (VDate a) (VDate b) = (b <? a).
Proof. reflexivity. Qed.



End FirstMaximum.

(** ** Status *)

Lemma format_of_maxBy (customer : obj) (m : milestone) :
  maxBy value (milestones customer) = Some m ->
  format customer = Return (camelize (Obj.put customer "status" (VStr (label m)))).
Proof. intros E. unfold format. now rewrite E. Qed.

Lemma format_throws_of_maxBy (customer : obj) :
  maxBy value (milestones customer) = None -> format customer = Throw TypeError.
Proof. intros E. unfold format. now rewrite E. Qed.


(** C5, as amended: the "ID card image" milestone is read from the row's
    [id_card_image_at]: when that holds a timestamp and each of [phone_at],
    [id_card_at] and [front_facing_cam_at] is null, absent or a strictly
    earlier timestamp, the status is "ID card image". *)
Theorem format_id_card_image_latest (customer : obj) (t : Z) :
  prop customer "id_card_image_at" = VDate t ->
  (forall k, In k ["phone_at"; "id_card_at"; "front_facing_cam_at"] ->
     nullish (prop customer k) = true \/
     exists t', prop customer k = VDate t' /\ t' < t) ->
  format customer = Return (camelize (Obj.put customer "status" (VStr "ID card image"))).
Proof.
  intros Himg Hothers.
  assert (H1 := Hothers "phone_at" (or_introl eq_refl)).
  assert (H2 := Hothers "id_card_at" (or_intror (or_introl eq_refl))).
  assert (H3 := Hothers "front_facing_cam_at" (or_intror (or_intror (or_introl eq_refl)))).
  unfold format, maxBy, milestones. simpl. rewrite Himg.
  destruct H1 as [H1|(t1 & H1 & L1)], H2 as [H2|(t2 & H2 & L2)],
           H3 as [H3|(t3 & H3 & L3)];
    rewrite ?H1, ?H2, ?H3; simpl;
    repeat match goal with
           | |- context [baseGt ?a ?b] => rewrite (baseGt_dates _ _)
           | |- context [?a <? ?b] => destruct (Z.ltb_spec a b); simpl
           end;
    solve [reflexivity | lia].
Qed.

(** [format] throws when the four milestone values are all null or absent,
    and what it throws is always a TypeError. *)
Lemma format_all_null (customer : obj) :
  Forall (fun m => nullish (value m) = true) (milestones customer) ->
  format customer = Throw TypeError.
Proof.
  intros H. apply format_throws_of_maxBy.
  unfold maxBy.
  induction (milestones customer) as [|m l IH]; [reflexivity|].
  inversion H as [|? ? Hm Hl]; subst. simpl. rewrite Hm. simpl. auto.
Qed.

Lemma format_throws_TypeError (customer : obj) (e : error) :
  format customer = Throw e -> e = TypeError.
Proof.
  unfold format. destruct (maxBy value (milestones customer)); congruence.
Qed.

Lemma baseExtremum_some {A : Type} (f : A -> jsval) (l : list A) (c : jsval) (x : A) :
  exists y, Lodash.baseExtremum f baseGt l (Some (c, x)) = Some y.
Proof.
  revert c x. induction l as [|z l IH]; intros c x; simpl.
  - now exists x.
  - destruct (negb (nullish (f z)) && baseGt (f z) c); apply IH.
Qed.

Lemma maxBy_some {A : Type} (f : A -> jsval) (l : list A) :
  Exists (fun x => nullish (f x) = false) l -> exists y, maxBy f l = Some y.
Proof.
  unfold maxBy. induction l as [|z l IH]; intros H.
  - inversion H.
  - simpl. destruct (nullish (f z)) eqn:E; simpl.
    + apply IH. inversion H as [? ? Hz|? ? Hl]; subst; [congruence|exact Hl].
    + apply baseExtremum_some.
Qed.

Lemma format_returns (customer : obj) :
  Exists (fun m => nullish (value m) = false) (milestones customer) ->
  exists c, format customer = Return c.
Proof.
  intros H. destruct (maxBy_some value _ H) as [m E].
  eexists. apply format_of_maxBy. exact E.
Qed.

(** ** Attribution *)

(** No attribution key is the name of an override field: a write of
    [addOverrideUser] changes no value that it or [overrides] tests. *)
Lemma by_key_not_field (f f' : string) :
  In f overrideFieldNames -> In f' overrideFieldNames -> (f ++ "_by")%string <> f'.
Proof.
  unfold overrideFieldNames. simpl.
  intros Hf Hf'.
  repeat (destruct Hf as [<-|Hf]; [|]); try contradiction;
    repeat (destruct Hf' as [<-|Hf']; [|]); try contradiction;
    discriminate.
Qed.

Lemma get_attribute_other userToken customer field k :
  k <> (field ++ "_by")%string ->
  Obj.get (attribute userToken customer field) k = Obj.get customer k.
Proof.
  intros Hk. unfold attribute. destruct (truthy (prop customer field)); [|reflexivity].
  apply get_put_neq. congruence.
Qed.

(** The loop of [addOverrideUser] over any list of fields none of whose
    attribution keys is a field of the list. *)
Lemma get_fold_attribute userToken (fields : list string) (customer : obj) (k : string) :
  (forall f f', In f fields -> In f' fields -> (f ++ "_by")%string <> f') ->
  Obj.get (fold_left (attribute userToken) fields customer) k
  = if existsb (fun f => truthy (prop customer f) && (k =? f ++ "_by")%string) fields
    then Some userToken
    else Obj.get customer k.
Proof.
  revert customer. induction fields as [|f fields IH]; intros customer Hdisj; [reflexivity|].
  simpl fold_left. rewrite IH by (intros; apply Hdisj; now right).
  assert (Hsame : forall f', In f' (f :: fields) ->
            prop (attribute userToken customer f) f' = prop customer f').
  { intros f' Hf'. unfold prop. rewrite get_attribute_other; [reflexivity|].
    intros ->. eapply Hdisj; [now left|exact Hf'|reflexivity]. }
  assert (Hex : existsb (fun f0 => truthy (prop (attribute userToken customer f) f0)
                                   && (k =? f0 ++ "_by")%string) fields
                = existsb (fun f0 => truthy (prop customer f0)
                                     && (k =? f0 ++ "_by")%string) fields).
  { clear IH. induction fields as [|g fields IHf]; [reflexivity|].
    cbn [existsb]. rewrite (Hsame g) by (right; now left). f_equal.
    apply IHf.
    - intros; apply Hdisj; simpl in *; prop_tauto.
    - intros; apply Hsame; simpl in *; prop_tauto. }
  rewrite Hex. cbn [existsb].
  match goal with
  | |- context [existsb ?g fields] => destruct (existsb g fields) eqn:Hrest
  end; [now rewrite orb_true_r|].
  rewrite orb_false_r.
  unfold attribute at 1.
  destruct (truthy (prop customer f)) eqn:Ht; simpl.
  - destruct (k =? f ++ "_by")%string eqn:Hk.
    + apply String.eqb_eq in Hk. subst k. apply get_put_eq.
    + apply String.eqb_neq in Hk. apply get_put_neq. congruence.
  - reflexivity.
Qed.

Lemma existsb_attributed (payload : obj) (k : string) :
  existsb (fun f => truthy (prop payload f) && (k =? f ++ "_by")%string) overrideFieldNames = true
  <-> attributed payload k.
Proof.
  rewrite existsb_exists. unfold attributed.
  split; intros (f & Hin & H).
  - apply andb_true_iff in H. destruct H as [Ht Hk].
    apply String.eqb_eq in Hk. eauto.
  - destruct H as [Ht ->]. exists f. split; [exact Hin|].
    now rewrite Ht, String.eqb_refl.
Qed.

Lemma get_addOverrideUser (payload : obj) (userToken : jsval) (k : string) :
  truthy userToken = true ->
  Obj.get (addOverrideUser payload userToken) k
  = if existsb (fun f => truthy (prop payload f) && (k =? f ++ "_by")%string) overrideFieldNames
    then Some userToken
    else Obj.get payload k.
Proof.
  intros Ht. unfold addOverrideUser. rewrite Ht. simpl negb. cbv iota.
  apply get_fold_attribute. exact by_key_not_field.
Qed.

(** The override fields read the same before and after the attribution. *)
Lemma prop_addOverrideUser_field (payload : obj) (userToken : jsval) (f : string) :
  In f overrideFieldNames ->
  prop (addOverrideUser payload userToken) f = prop payload f.
Proof.
  intros Hf. destruct (truthy userToken) eqn:Ht.
  - unfold prop. rewrite get_addOverrideUser by exact Ht.
    destruct (existsb _ overrideFieldNames) eqn:E; [|reflexivity].
    apply existsb_attributed in E. destruct E as (g & Hg & _ & Heq).
    exfalso. exact (by_key_not_field g f Hg Hf (eq_sym Heq)).
  - unfold addOverrideUser. now rewrite Ht.
Qed.

(** ** The audit writes *)

Lemma complianceOverrides_add_tables rejects db o :
  let db' := fst (complianceOverrides_add rejects db o) in
  customers db' = customers db /\
  cash_in_txs db' = cash_in_txs db /\
  cash_out_txs db' = cash_out_txs db /\
  now db' = now db /\
  compliance_overrides db'
  = compliance_overrides db ++ (if rejects o then [] else [o]).
Proof.
  unfold complianceOverrides_add. destruct (rejects o); simpl; repeat split; auto.
  now rewrite app_nil_r.
Qed.

Lemma add_each_tables rejects l : forall db,
  let db' := fst (add_each rejects db l) in
  customers db' = customers db /\
  cash_in_txs db' = cash_in_txs db /\
  cash_out_txs db' = cash_out_txs db /\
  now db' = now db /\
  compliance_overrides db'
  = compliance_overrides db ++ filter (fun o => negb (rejects o)) l.
Proof.
  induction l as [|o l IH]; intros db; simpl.
  - repeat split; auto. now rewrite app_nil_r.
  - destruct (complianceOverrides_add_tables rejects db o) as (C & I & O & N & A).
    destruct (complianceOverrides_add rejects db o) as [db1 p] eqn:E1. simpl in *.
    destruct (IH db1) as (C' & I' & O' & N' & A').
    destruct (add_each rejects db1 l) as [db2 ps] eqn:E2. simpl in *.
    repeat split; try congruence.
    rewrite A', A, <- app_assoc. f_equal.
    now destruct (rejects o).
Qed.

Lemma addComplianceOverrides_tables rejects db id customer userToken :
  let db' := fst (addComplianceOverrides rejects db id customer userToken) in
  customers db' = customers db /\
  cash_in_txs db' = cash_in_txs db /\
  cash_out_txs db' = cash_out_txs db /\
  now db' = now db /\
  compliance_overrides db'
  = compliance_overrides db
    ++ filter (fun o => negb (rejects o)) (overrides id customer userToken).
Proof.
  unfold addComplianceOverrides.
  pose proof (add_each_tables rejects (overrides id customer userToken) db) as H.
  destruct (add_each rejects db (overrides id customer userToken)) as [db' ps].
  exact H.
Qed.

(** The statement of [update] leaves the audit table as it finds it. *)
Lemma update_overrides_table rejects db id data userToken :
  compliance_overrides (fst (update rejects db id data userToken))
  = compliance_overrides
      (fst (addComplianceOverrides rejects db id (updateData data userToken) userToken)).
Proof.
  unfold update.
  destruct (helpers_update _ _); reflexivity.
Qed.

Lemma update_customers_table rejects db id data userToken :
  customers (fst (update rejects db id data userToken))
  = match helpers_update (updateData data userToken)
            (Lodash.keys (updateData data userToken)) with
    | Return sql => customers (fst (update_returning sql id db))
    | Throw _ => customers db
    end.
Proof.
  unfold update.
  destruct (addComplianceOverrides_tables rejects db id (updateData data userToken) userToken)
    as (C & _).
  destruct (helpers_update _ _); simpl; now rewrite C.
Qed.

(** C4: in [update], when the acting user's token is truthy, the payload
    that is written holds the token under [<field>_by] for each of the six
    override fields [sms_override], [id_card_data_override],
    [id_card_photo_override], [front_facing_cam_override],
    [sanctions_check_override] and [authorized_override] that the normalized
    payload holds with a truthy value, and is the normalized payload at every
    other key; when the token is absent (falsy) the payload written is the
    normalized payload itself, so no attribution is added.  It is this
    payload whose columns the update statement assigns. *)
Theorem update_attribution (data : obj) (userToken : jsval) :
  let payload := formattedData data in
  let written := updateData data userToken in
  let by_of_override (k : string) :=
    exists field,
      In field [ "sms_override"; "id_card_data_override"; "id_card_photo_override";
                 "front_facing_cam_override"; "sanctions_check_override";
                 "authorized_override" ] /\
      truthy (prop payload field) = true /\
      k = (field ++ "_by")%string in
  (truthy userToken = true ->
     (forall k, by_of_override k -> Obj.get written k = Some userToken) /\
     (forall k, ~ by_of_override k -> Obj.get written k = Obj.get payload k)) /\
  (truthy userToken = false -> written = payload) /\
  (forall rejects db id,
     customers (fst (update rejects db id data userToken))
     = match helpers_update written (Lodash.keys written) with
       | Return sql => customers (fst (update_returning sql id db))
       | Throw _ => customers db
       end).
Proof.
  cbv zeta.
  change (fun k : string =>
            exists field,
              In field [ "sms_override"; "id_card_data_override"; "id_card_photo_override";
                         "front_facing_cam_override"; "sanctions_check_override";
                         "authorized_override" ] /\
              truthy (prop (formattedData data) field) = true /\
              k = (field ++ "_by")%string)
    with (attributed (formattedData data)).
  unfold updateData. repeat split.
  - intros k Hk. rewrite get_addOverrideUser by assumption.
    apply existsb_attributed in Hk. now rewrite Hk.
  - intros k Hk. rewrite get_addOverrideUser by assumption.
    destruct (existsb _ overrideFieldNames) eqn:E; [|reflexivity].
    apply existsb_attributed in E. contradiction.
  - intros Hf. unfold addOverrideUser. now rewrite Hf.
  - intros. apply update_customers_table.
Qed.

(** ** One audit record per override *)

Section Overrides.
Variables (id userToken : jsval) (customer : obj).

Local Abbreviation override name ctype :=
  {| customerId := id; complianceType := ctype;
     overrideBy := userToken; verification := prop customer name |}.
Local Abbreviation saved fields :=
  (Lodash.compact (map (override_of id customer userToken) fields)).

Lemma saved_cons (n c : string) (fields : list (string * string)) :
  saved ((n, c) :: fields)
  = if truthy (prop customer n) then override n c :: saved fields else saved fields.
Proof.
  simpl. unfold override_of at 1. simpl.
  now destruct (truthy (prop customer n)).
Qed.

Lemma count_type_cons (ctype : string) (o : ComplianceOverride) (l : list ComplianceOverride) :
  count_type ctype (o :: l)
  = ((if (complianceType o =? ctype)%string then 1 else 0) + count_type ctype l)%nat.
Proof.
  unfold count_type. simpl. now destruct (complianceType o =? ctype)%string.
Qed.

Lemma count_type_absent (fields : list (string * string)) (ctype : string) :
  ~ In ctype (map snd fields) -> count_type ctype (saved fields) = 0%nat.
Proof.
  induction fields as [|[n c] fields IH]; intros Hnot; [reflexivity|].
  simpl in Hnot. rewrite saved_cons.
  assert (Hc : (c =? ctype)%string = false) by (apply String.eqb_neq; prop_tauto).
  destruct (truthy (prop customer n)).
  - rewrite count_type_cons. simpl. rewrite Hc. apply IH. prop_tauto.
  - apply IH. prop_tauto.
Qed.

Lemma count_type_present (fields : list (string * string)) (name ctype : string) :
  NoDup (map snd fields) ->
  In (name, ctype) fields ->
  if truthy (prop customer name)
  then count_type ctype (saved fields) = 1%nat /\ In (override name ctype) (saved fields)
  else count_type ctype (saved fields) = 0%nat.
Proof.
  induction fields as [|[n c] fields IH]; intros Hnd Hin; [contradiction|].
  simpl in Hnd. inversion Hnd as [|? ? Hnotin Hnd']; subst.
  rewrite saved_cons.
  destruct Hin as [Heq|Hin].
  - injection Heq as -> ->.
    pose proof (count_type_absent fields ctype Hnotin) as H0.
    destruct (truthy (prop customer name)); [|exact H0].
    rewrite count_type_cons. simpl. rewrite String.eqb_refl, H0. auto.
  - assert (Hne : (c =? ctype)%string = false).
    { apply String.eqb_neq. intros ->. apply Hnotin.
      apply in_map_iff. now exists (name, ctype). }
    specialize (IH Hnd' Hin).
    destruct (truthy (prop customer n)); [|exact IH].
    rewrite count_type_cons. simpl. rewrite Hne. simpl.
    destruct (truthy (prop customer name)); [|exact IH].
    destruct IH as [IH1 IH2]. split; [exact IH1|now right].
Qed.

Lemma types_of_saved (fields : list (string * string)) :
  Forall (fun o => In (complianceType o) (map snd fields)) (saved fields).
Proof.
  induction fields as [|[n c] fields IH]; [constructor|].
  rewrite saved_cons.
  assert (IH' : Forall (fun o => In (complianceType o) (map snd ((n, c) :: fields)))
                       (saved fields)).
  { eapply Forall_impl; [|exact IH]. intros o Ho. now right. }
  destruct (truthy (prop customer n)); [constructor; [now left|]|]; exact IH'.
Qed.

End Overrides.

Lemma overrideFields_types_NoDup : NoDup (map snd overrideFields).
Proof.
  unfold overrideFields. simpl.
  repeat (constructor;
          [simpl; intros H;
           repeat (destruct H as [H|H]; [discriminate H|]); exact H|]).
  constructor.
Qed.

Lemma overrideFields_names :
  map fst overrideFields = overrideFieldNames.
Proof. reflexivity. Qed.

(** [overrides] reads the same records off the payload before and after the
    attribution. *)
Lemma overrides_addOverrideUser (id : jsval) (payload : obj) (userToken : jsval) :
  overrides id (addOverrideUser payload userToken) userToken
  = overrides id payload userToken.
Proof.
  unfold overrides. f_equal. apply map_ext_in.
  intros [n c] Hin. unfold override_of. simpl.
  assert (Hn : In n overrideFieldNames).
  { rewrite <- overrideFields_names. apply in_map_iff. now exists (n, c). }
  now rewrite (prop_addOverrideUser_field payload userToken n Hn).
Qed.

(** C1: [update] hands to the Override Tracker Store, for each of the six
    override fields that the normalized payload holds with a truthy value,
    exactly one record, which carries the customer id, the field's compliance
    type ([sms_override]: sms, [id_card_data_override]: id_card_data,
    [id_card_photo_override]: id_card_photo, [front_facing_cam_override]:
    front_camera, [sanctions_check_override]: sanctions,
    [authorized_override]: authorized), the acting user's token (present or
    not) and the field's value; it hands over no record for a field that is
    absent or falsy, and no record of another type.  The audit table gains
    the records the store accepts, whatever becomes of the row update. *)
Theorem update_creates_overrides (rejects : ComplianceOverride -> bool) (db : Db)
    (id : jsval) (data : obj) (userToken : jsval) :
  let payload := formattedData data in
  exists created,
    compliance_overrides (fst (update rejects db id data userToken))
    = compliance_overrides db ++ filter (fun o => negb (rejects o)) created /\
    Forall (fun o => In (complianceType o)
                        [ "sms"; "id_card_data"; "id_card_photo";
                          "front_camera"; "sanctions"; "authorized" ]) created /\
    forall name ctype,
      In (name, ctype)
         [ ("sms_override", "sms");
           ("id_card_data_override", "id_card_data");
           ("id_card_photo_override", "id_card_photo");
           ("front_facing_cam_override", "front_camera");
           ("sanctions_check_override", "sanctions");
           ("authorized_override", "authorized") ] ->
      if truthy (prop payload name)
      then count_type ctype created = 1%nat /\
           In {| customerId := id; complianceType := ctype;
                 overrideBy := userToken; verification := prop payload name |}
              created
      else count_type ctype created = 0%nat.
Proof.
  cbv zeta. exists (overrides id (formattedData data) userToken). repeat split.
  - rewrite update_overrides_table.
    destruct (addComplianceOverrides_tables rejects db id (updateData data userToken) userToken)
      as (_ & _ & _ & _ & ->).
    unfold updateData. now rewrite overrides_addOverrideUser.
  - exact (types_of_saved id userToken (formattedData data) overrideFields).
  - intros name ctype Hin.
    exact (count_type_present id userToken (formattedData data) overrideFields
             name ctype overrideFields_types_NoDup Hin).
Qed.

(** ** The audit write and the row update *)

(** C7: the customers table that [update] leaves and the outcome it gives
    its caller are the same whichever audit writes the store rejects: the
    promise of the audit writes is dropped, and the row update runs on the
    table the audit writes do not touch.  The audit writes are made before
    the row update and do not wait for it: the audit table holds the accepted
    records whatever the outcome of the update. *)
Theorem update_independent_of_audit (rejects1 rejects2 : ComplianceOverride -> bool)
    (db : Db) (id : jsval) (data : obj) (userToken : jsval) :
  customers (fst (update rejects1 db id data userToken))
  = customers (fst (update rejects2 db id data userToken)) /\
  snd (update rejects1 db id data userToken)
  = snd (update rejects2 db id data userToken) /\
  compliance_overrides (fst (update rejects1 db id data userToken))
  = compliance_overrides db
    ++ filter (fun o => negb (rejects1 o))
         (overrides id (updateData data userToken) userToken).
Proof.
  split; [|split].
  - now rewrite !update_customers_table.
  - unfold update.
    destruct (addComplianceOverrides_tables rejects1 db id (updateData data userToken) userToken)
      as (C1 & _).
    destruct (addComplianceOverrides_tables rejects2 db id (updateData data userToken) userToken)
      as (C2 & _).
    destruct (helpers_update _ _); simpl; [|reflexivity].
    now rewrite C1, C2.
  - rewrite update_overrides_table.
    now destruct (addComplianceOverrides_tables rejects1 db id
                    (updateData data userToken) userToken) as (_ & _ & _ & _ & ->).
Qed.

(** The outcome of [update] in terms of the rows that match the id. *)
Lemma update_outcome rejects db id data userToken :
  snd (update rejects db id data userToken)
  = match helpers_update (updateData data userToken)
            (Lodash.keys (updateData data userToken)) with
    | Throw e => Throw e
    | Return sql =>
        Return (then_ (db_one (map (assign sql) (select_by_id db id)))
                      (fun customer => format_or_null (Some customer)))
    end.
Proof.
  unfold update, select_by_id.
  destruct (addComplianceOverrides_tables rejects db id (updateData data userToken) userToken)
    as (C & _).
  destruct (helpers_update _ _); simpl; [|reflexivity].
  now rewrite C.
Qed.

(** C3, what the code does: for an id that no customer row has, [update]
    does not give an absent value: it throws when the payload has no column,
    and otherwise its promise is rejected with the store's "no data"
    error, since the statement is run with [db.one]. *)
Theorem update_missing_id_fails (rejects : ComplianceOverride -> bool) (db : Db)
    (id : jsval) (data : obj) (userToken : jsval) :
  select_by_id db id = [] ->
  snd (update rejects db id data userToken) = Throw NoColumnsError \/
  snd (update rejects db id data userToken) = Return (Rejected QueryResultError_noData).
Proof.
  intros Hnone. rewrite update_outcome, Hnone.
  unfold helpers_update.
  destruct (Lodash.keys (updateData data userToken)); [left|right]; reflexivity.
Qed.

(** ** Daily volume *)

Lemma coalesce_sql_sum_cons (x : option Qc) (l : list (option Qc)) :
  coalesce (sql_sum (x :: l)) 0%Qc
  = (match x with Some q => q | None => 0%Qc end + coalesce (sql_sum l) 0%Qc)%Qc.
Proof.
  destruct x as [q|]; simpl.
  - destruct (sql_sum l); simpl; [reflexivity|]. now rewrite Qcplus_0_r.
  - now rewrite Qcplus_0_l.
Qed.

Lemma total_after_cons (clock : Z) (id : jsval) (tx : Tx) (txs : list Tx) :
  total_after (day_before clock) id (tx :: txs)
  = if in_last_day clock id tx
    then (match fiat tx with Some amount => amount | None => 0%Qc end
          + total_after (day_before clock) id txs)%Qc
    else total_after (day_before clock) id txs.
Proof. reflexivity. Qed.

Lemma select_total_after (clock : Z) (txs : list Tx) (id : jsval) :
  select_total clock txs id = [total_after (day_before clock) id txs].
Proof.
  unfold select_total. f_equal.
  induction txs as [|tx txs IH]; [reflexivity|].
  simpl filter. rewrite total_after_cons.
  destruct (in_last_day clock id tx); [|exact IH].
  simpl map. rewrite coalesce_sql_sum_cons. now rewrite IH.
Qed.

Lemma getDailyVolume_total (db : Db) (id : jsval) :
  getDailyVolume db id
  = Resolved (total_after (day_before (now db)) id (cash_in_txs db)
              + total_after (day_before (now db)) id (cash_out_txs db))%Qc.
Proof.
  unfold getDailyVolume. now rewrite !select_total_after.
Qed.

Lemma total_after_none (clock : Z) (id : jsval) (txs : list Tx) :
  Forall (fun tx => in_last_day clock id tx = false) txs ->
  total_after (day_before clock) id txs = 0%Qc.
Proof.
  induction 1 as [|tx txs Htx _ IH]; [reflexivity|].
  rewrite total_after_cons, Htx. exact IH.
Qed.

Lemma total_after_stale (clock : Z) (id : jsval) (stale : Tx) (txs : list Tx) :
  created stale <= day_before clock ->
  total_after (day_before clock) id (stale :: txs) = total_after (day_before clock) id txs.
Proof.
  intros Hold. rewrite total_after_cons. unfold in_last_day.
  replace (day_before clock <? created stale) with false
    by (symmetry; apply Z.ltb_ge; lia).
  now rewrite andb_false_r.
Qed.

(** After the instant 24 hours before the clock is less than 24 hours ago. *)
Lemma total_after_24_hours (clock : Z) (id : jsval) (txs : list Tx) :
  total_after (clock - hours_24) id txs = trailing_day_total clock id txs.
Proof.
  induction txs as [|tx txs IH]; [reflexivity|].
  simpl. rewrite IH.
  replace (clock - hours_24 <? created tx)
    with (clock - created tx <? 24 * 60 * 60 * 1000); [reflexivity|].
  unfold hours_24.
  destruct (Z.ltb_spec (clock - created tx) (24 * 60 * 60 * 1000)),
           (Z.ltb_spec (clock - 24 * 60 * 60 * 1000) (created tx)); auto; lia.
Qed.

(** C6, as amended: [getDailyVolume] never fails; its result is the exact sum
    of the fiat amounts of the customer's cash-in and cash-out transactions
    created after [now() - interval '1 day'], the instant that the store
    takes for one day before its clock.  When that instant is 24 hours before
    the clock, these are the transactions of the trailing 24 hours.  A
    transaction created at that instant or earlier, in either table, changes
    nothing; and with no transaction of the customer after it the result is
    zero. *)
Theorem getDailyVolume_last_day (db : Db) (id : jsval) :
  getDailyVolume db id
  = Resolved (total_after (day_before (now db)) id (cash_in_txs db)
              + total_after (day_before (now db)) id (cash_out_txs db))%Qc /\
  (day_before (now db) = now db - hours_24 ->
   getDailyVolume db id
   = Resolved (trailing_day_total (now db) id (cash_in_txs db)
               + trailing_day_total (now db) id (cash_out_txs db))%Qc) /\
  (forall stale, created stale <= day_before (now db) ->
     getDailyVolume (with_cash_in db (stale :: cash_in_txs db)) id = getDailyVolume db id /\
     getDailyVolume (with_cash_out db (stale :: cash_out_txs db)) id = getDailyVolume db id) /\
  (Forall (fun tx => in_last_day (now db) id tx = false) (cash_in_txs db) ->
   Forall (fun tx => in_last_day (now db) id tx = false) (cash_out_txs db) ->
   getDailyVolume db id = Resolved 0%Qc).
Proof.
  split; [apply getDailyVolume_total|]. split; [|split].
  - intros H24. rewrite getDailyVolume_total, H24.
    now rewrite !total_after_24_hours.
  - intros stale Hold. split.
    + rewrite !getDailyVolume_total.
      cbn [with_cash_in cash_in_txs cash_out_txs now].
      now rewrite total_after_stale.
    + rewrite !getDailyVolume_total.
      cbn [with_cash_out cash_in_txs cash_out_txs now].
      now rewrite total_after_stale.
  - intros Hin Hout. rewrite getDailyVolume_total.
    rewrite (total_after_none _ _ _ Hin), (total_after_none _ _ _ Hout).
    now rewrite Qcplus_0_r.
Qed.

(** ** Lookup by phone *)

(** C8: [get] resolves with no customer when no row has the phone; when one
    row has it, [get] resolves with a record of three properties, the row's
    id and phone and, under [dailyVolume], the customer's daily volume: there
    is no [status] in it. *)
Theorem get_by_phone (db : Db) (phone : jsval) :
  let rows := filter (fun c => sql_eq (column c "phone") (to_sql phone)) (customers db) in
  (rows = [] -> get db phone = Resolved None) /\
  (forall c, rows = [c] ->
     exists r v,
       get db phone = Resolved (Some r) /\
       getDailyVolume db (column c "id") = Resolved v /\
       Obj.get r "dailyVolume" = Some (BigNumber v) /\
       Obj.get r "status" = None /\
       Lodash.keys r = ["id"; "phone"; "dailyVolume"] /\
       Obj.get r "id" = Some (Plain (column c "id")) /\
       Obj.get r "phone" = Some (Plain (column c "phone"))).
Proof.
  cbv zeta. split.
  - intros Hrows. unfold get, select_by_phone. now rewrite Hrows.
  - intros c Hrows.
    set (v := (total_after (day_before (now db)) (column c "id") (cash_in_txs db)
               + total_after (day_before (now db)) (column c "id") (cash_out_txs db))%Qc).
    exists (Lodash.set "dailyVolume" (BigNumber v)
              (plain [("id", column c "id"); ("phone", column c "phone")])), v.
    split; [|repeat split; apply getDailyVolume_total].
    unfold get, select_by_phone. rewrite Hrows.
    cbn [map db_oneOrNone then_promise].
    change (prop [("id", column c "id"); ("phone", column c "phone")] "id")
      with (column c "id").
    now rewrite getDailyVolume_total.
Qed.

(** ** Listing *)

Lemma created_desc_total (a b : obj) :
  created_desc a b = false -> created_desc b a = true.
Proof.
  unfold created_desc.
  destruct (column a "created"), (column b "created");
    try discriminate; try reflexivity.
  intros H. apply Z.leb_gt in H. apply Z.leb_le. lia.
Qed.

Lemma created_desc_trans (a b c : obj) :
  created_desc a b = true -> created_desc b c = true -> created_desc a c = true.
Proof.
  unfold created_desc.
  destruct (column a "created"), (column b "created"), (column c "created");
    try discriminate; try reflexivity.
  rewrite !Z.leb_le. lia.
Qed.

Lemma In_insert_desc (row x : obj) (l : list obj) :
  In x (insert_desc row l) <-> x = row \/ In x l.
Proof.
  induction l as [|r l IH]; simpl.
  - split; intros [H|H]; auto.
  - destruct (created_desc row r); simpl.
    + split; [intros [H|[H|H]]|intros [H|[H|H]]]; auto.
    + rewrite IH. split; [intros [H|[H|H]]|intros [H|[H|H]]]; auto.
Qed.

Lemma In_order_by_created_desc (x : obj) (l : list obj) :
  In x (order_by_created_desc l) <-> In x l.
Proof.
  induction l as [|r l IH]; simpl; [prop_tauto|].
  rewrite In_insert_desc, IH. split; intros [H|H]; auto.
Qed.

Lemma length_insert_desc (row : obj) (l : list obj) :
  List.length (insert_desc row l) = S (List.length l).
Proof.
  induction l as [|r l IH]; simpl; [reflexivity|].
  destruct (created_desc row r); simpl; [reflexivity|]. now rewrite IH.
Qed.

Lemma length_order_by_created_desc (l : list obj) :
  List.length (order_by_created_desc l) = List.length l.
Proof.
  induction l as [|r l IH]; simpl; [reflexivity|].
  now rewrite length_insert_desc, IH.
Qed.

Lemma insert_desc_sorted (row : obj) (l : list obj) :
  StronglySorted (fun a b => created_desc a b = true) l ->
  StronglySorted (fun a b => created_desc a b = true) (insert_desc row l).
Proof.
  induction 1 as [|r l Hl IH Hr]; simpl.
  - repeat constructor.
  - destruct (created_desc row r) eqn:E.
    + constructor; [now constructor|].
      constructor; [exact E|].
      eapply Forall_impl; [|exact Hr].
      intros x Hx. now apply created_desc_trans with r.
    + constructor; [exact IH|].
      apply Forall_forall. intros x Hx.
      apply In_insert_desc in Hx. destruct Hx as [->|Hx].
      * now apply created_desc_total.
      * rewrite Forall_forall in Hr. auto.
Qed.

Lemma order_by_created_desc_sorted (l : list obj) :
  StronglySorted (fun a b => created_desc a b = true) (order_by_created_desc l).
Proof.
  induction l as [|r l IH]; simpl; [constructor|].
  now apply insert_desc_sorted.
Qed.

Lemma In_firstn {A : Type} (n : nat) (l : list A) (x : A) :
  In x (firstn n l) -> In x l.
Proof.
  revert l. induction n as [|n IH]; intros [|y l]; simpl; try prop_tauto.
  intros [->|H]; auto.
Qed.

Lemma firstn_sorted {A : Type} (R : A -> A -> Prop) (n : nat) (l : list A) :
  StronglySorted R l -> StronglySorted R (firstn n l).
Proof.
  intros H. revert n. induction H as [|x l Hl IH Hx]; intros [|n]; simpl;
    try constructor.
  - apply IH.
  - apply Forall_forall. intros y Hy. apply In_firstn in Hy.
    rewrite Forall_forall in Hx. auto.
Qed.

Lemma map_format_Forall2 (rows l : list obj) :
  map_format rows = Return l -> Forall2 (fun row c => format row = Return c) rows l.
Proof.
  revert l. induction rows as [|r rows IH]; simpl; intros l H.
  - injection H as <-. constructor.
  - destruct (format r) as [c|] eqn:E; [|discriminate].
    destruct (map_format rows) as [cs|]; [|discriminate].
    injection H as <-. constructor; auto.
Qed.

Lemma map_format_returns (rows : list obj) :
  Forall (fun row => exists c, format row = Return c) rows ->
  exists l, map_format rows = Return l.
Proof.
  induction 1 as [|r rows [c Hc] _ [l IH]]; simpl.
  - now exists [].
  - rewrite Hc, IH. now exists (c :: l).
Qed.

Lemma map_format_throws (rows : list obj) (row : obj) :
  In row rows -> format row = Throw TypeError -> map_format rows = Throw TypeError.
Proof.
  induction rows as [|r rows IH]; simpl; [prop_tauto|].
  intros [->|Hin] Hrow.
  - now rewrite Hrow.
  - destruct (format r) as [c|e] eqn:E.
    + now rewrite (IH Hin Hrow).
    + now rewrite (format_throws_TypeError r e E).
Qed.

Lemma sql_neq_not_eq (a b : jsval) : sql_neq a b = true -> a <> b.
Proof.
  unfold sql_neq. intros H ->.
  destruct b; simpl in H; try discriminate.
  - now rewrite Bool.eqb_reflx in H.
  - now rewrite Z.eqb_refl in H.
  - now rewrite String.eqb_refl in H.
  - now rewrite Z.eqb_refl in H.
Qed.

Lemma In_select_recent (db : Db) (exclude : jsval) (limit : nat) (row : obj) :
  In row (select_recent db exclude limit) ->
  In row (customers db) /\ sql_neq (column row "id") (to_sql exclude) = true.
Proof.
  unfold select_recent. intros H.
  apply In_firstn, In_order_by_created_desc, filter_In in H. exact H.
Qed.

(** C9: when [batch] resolves, each customer it returns is [format] of a row
    of the customers table, in the order of the rows; no row is the anonymous
    customer's, there are at most 20 of them, and they are sorted by
    [created], later first.  [batch] does resolve when every row other than
    the anonymous customer's has a milestone that is not null. *)
Theorem batch_listing (db : Db) :
  (forall l, batch db = Resolved l ->
     exists rows,
       Forall2 (fun row c => format row = Return c) rows l /\
       (List.length l <= 20)%nat /\
       Forall (fun row => In row (customers db) /\
                          column row "id" <> VStr anonymous_uuid) rows /\
       StronglySorted (fun a b => created_desc a b = true) rows) /\
  (Forall (fun row => sql_neq (column row "id") (VStr anonymous_uuid) = true ->
                      Exists (fun m => nullish (value m) = false) (milestones row))
          (customers db) ->
   exists l, batch db = Resolved l).
Proof.
  unfold batch, db_any, then_. split.
  - intros l H.
    destruct (map_format _) as [l'|] eqn:E; [|discriminate].
    injection H as ->.
    exists (select_recent db (VStr anonymous_uuid) NUM_RESULTS).
    pose proof (map_format_Forall2 _ _ E) as HF.
    repeat split.
    + exact HF.
    + rewrite <- (Forall2_length HF). unfold select_recent. apply firstn_le_length.
    + apply Forall_forall. intros row Hrow.
      apply In_select_recent in Hrow. destruct Hrow as [Hin Hneq].
      split; [exact Hin|]. now apply sql_neq_not_eq in Hneq.
    + unfold select_recent. apply firstn_sorted, order_by_created_desc_sorted.
  - intros Hall.
    destruct (map_format_returns (select_recent db (VStr anonymous_uuid) NUM_RESULTS))
      as [l Hl].
    + apply Forall_forall. intros row Hrow.
      apply In_select_recent in Hrow. destruct Hrow as [Hin Hneq].
      rewrite Forall_forall in Hall. apply format_returns. auto.
    + rewrite Hl. now exists l.
Qed.

(** ** A customer without milestones *)

Lemma getById_outcome (db : Db) (id : jsval) (customer : obj) :
  select_by_id db id = [customer] ->
  getById db id = then_ (Resolved (Some customer)) format_or_null.
Proof. intros H. unfold getById. now rewrite H. Qed.

(** C10: for a customer row whose [phone_at], [id_card_at],
    [front_facing_cam_at] and [id_card_image_at] are all null or absent,
    [format] throws a TypeError; so [getById] of that customer is rejected,
    [batch] is rejected when the row is among those it lists, and [update]
    is rejected, after its row update, when the updated row is such a row. *)
Theorem all_null_milestones_fail (customer : obj) :
  (forall k, In k ["phone_at"; "id_card_at"; "front_facing_cam_at"; "id_card_image_at"] ->
     nullish (prop customer k) = true) ->
  format customer = Throw TypeError /\
  (forall db id,
     select_by_id db id = [customer] -> getById db id = Rejected TypeError) /\
  (forall db,
     In customer (customers db) ->
     sql_neq (column customer "id") (VStr anonymous_uuid) = true ->
     (List.length (filter (fun c => sql_neq (column c "id") (VStr anonymous_uuid))
                          (customers db)) <= NUM_RESULTS)%nat ->
     batch db = Rejected TypeError) /\
  (forall rejects db id data userToken row sql,
     select_by_id db id = [row] ->
     helpers_update (updateData data userToken)
                    (Lodash.keys (updateData data userToken)) = Return sql ->
     assign sql row = customer ->
     snd (update rejects db id data userToken) = Return (Rejected TypeError)).
Proof.
  intros Hnull.
  assert (Hthrow : format customer = Throw TypeError).
  { apply format_all_null. unfold milestones.
    repeat constructor; simpl; apply Hnull; simpl; prop_tauto. }
  split; [exact Hthrow|]. split; [|split].
  - intros db id Hsel. rewrite (getById_outcome db id customer Hsel).
    simpl. now rewrite Hthrow.
  - intros db Hin Hneq Hlen.
    unfold batch, db_any, then_.
    rewrite (map_format_throws _ customer); [reflexivity| |exact Hthrow].
    unfold select_recent. rewrite firstn_all2.
    + apply In_order_by_created_desc, filter_In. split; assumption.
    + now rewrite length_order_by_created_desc.
  - intros rejects db id data userToken row sql Hsel Hsql Hrow.
    rewrite update_outcome, Hsql, Hsel. simpl. rewrite Hrow.
    now rewrite Hthrow.
Qed.


(** ** What an assignment writes, and what a status can be *)

Lemma get_assign (data : obj) (columns : list string) (row : obj) (k : string) :
  Obj.get (assign (map (fun c => (c, to_sql (prop data c))) columns) row) k
  = if existsb (String.eqb k) columns
    then Some (to_sql (prop data k))
    else Obj.get row k.
Proof.
  revert row. induction columns as [|c columns IH]; intros row; [reflexivity|].
  simpl map. unfold assign in *. simpl fold_left. rewrite IH. simpl existsb.
  destruct (existsb (String.eqb k) columns); [now rewrite orb_true_r|].
  rewrite orb_false_r.
  destruct (k =? c)%string eqn:E.
  - apply String.eqb_eq in E. subst c. apply get_put_eq.
  - apply String.eqb_neq in E. apply get_put_neq. congruence.
Qed.

Lemma baseExtremum_In {A : Type} (f : A -> jsval) (l : list A)
    (acc : option (jsval * A)) (y : A) :
  Lodash.baseExtremum f baseGt l acc = Some y ->
  In y l \/ exists c, acc = Some (c, y).
Proof.
  revert acc. induction l as [|z l IH]; intros acc; simpl.
  - destruct acc as [[c x]|]; simpl; [|discriminate].
    intros H. injection H as ->. right. now exists c.
  - intros H. apply IH in H. destruct H as [H|[c H]]; [left; now right|].
    destruct (negb (nullish (f z)) && _).
    + injection H as _ ->. left. now left.
    + right. now exists c.
Qed.

(** The status that [format] sets is one of the four labels. *)
Theorem format_status_is_a_label (customer c : obj) :
  format customer = Return c ->
  exists status,
    In status ["Phone"; "ID card"; "Front facing camera"; "ID card image"] /\
    c = camelize (Obj.put customer "status" (VStr status)).
Proof.
  unfold format. destruct (maxBy value (milestones customer)) as [m|] eqn:E; [|discriminate].
  intros H. injection H as <-. exists (label m). split; [|reflexivity].
  apply baseExtremum_In in E. destruct E as [E|[c' E]]; [|discriminate].
  change ["Phone"; "ID card"; "Front facing camera"; "ID card image"]
    with (map label (milestones customer)).
  now apply in_map.
Qed.


(** ** The id under an update *)

Lemma get_omit {V : Type} (props : list string) (o : Obj.t V) (k : string) :
  existsb (String.eqb k) props = true -> Obj.get (Lodash.omit props o) k = None.
Proof.
  intros Hk. unfold Lodash.omit.
  induction o as [|[k' v] o IH]; [reflexivity|].
  simpl. destruct (existsb (String.eqb k') props) eqn:E; simpl; [exact IH|].
  destruct (k =? k')%string eqn:Ek; [|exact IH].
  apply String.eqb_eq in Ek. subst k'. congruence.
Qed.

Lemma get_none_keys {V : Type} (o : Obj.t V) (k : string) :
  Obj.get o k = None -> existsb (String.eqb k) (Lodash.keys o) = false.
Proof.
  unfold Lodash.keys. induction o as [|[k' v] o IH]; [reflexivity|].
  simpl. destruct (k =? k')%string; [discriminate|]. exact IH.
Qed.

(** The payload that [update] writes never names the [id] column. *)
Lemma updateData_no_id (data : obj) (userToken : jsval) :
  existsb (String.eqb "id") (Lodash.keys (updateData data userToken)) = false.
Proof.
  apply get_none_keys. unfold updateData.
  assert (Hp : Obj.get (formattedData data) "id" = None)
    by (apply get_omit; reflexivity).
  destruct (truthy userToken) eqn:Ht.
  - rewrite get_addOverrideUser by exact Ht.
    destruct (existsb _ overrideFieldNames) eqn:E; [|exact Hp].
    apply existsb_exists in E. destruct E as (f & Hf & E).
    apply andb_true_iff in E. destruct E as [_ E].
    unfold overrideFieldNames in Hf. simpl in Hf.
    repeat (destruct Hf as [<-|Hf]; [discriminate E|]). contradiction.
  - unfold addOverrideUser. now rewrite Ht.
Qed.

Lemma helpers_update_sql (data : obj) (userToken : jsval) :
  helpers_update (updateData data userToken) (Lodash.keys (updateData data userToken))
  = match Lodash.keys (updateData data userToken) with
    | [] => Throw NoColumnsError
    | _ => Return (update_sql data userToken)
    end.
Proof. unfold helpers_update, update_sql. now destruct (Lodash.keys _). Qed.

Lemma get_update_sql_id (data : obj) (userToken : jsval) (row : obj) :
  Obj.get (assign (update_sql data userToken) row) "id" = Obj.get row "id".
Proof. unfold update_sql. now rewrite get_assign, updateData_no_id. Qed.

Lemma column_update_sql_id (data : obj) (userToken : jsval) (row : obj) :
  column (assign (update_sql data userToken) row) "id" = column row "id".
Proof. unfold column, prop. now rewrite get_update_sql_id. Qed.

Lemma put_same {V : Type} (o : Obj.t V) (k : string) (v : V) :
  Obj.get o k = Some v -> Obj.put o k v = o.
Proof.
  induction o as [|[k' v'] o IH]; simpl; [discriminate|].
  destruct (k =? k')%string eqn:E.
  - apply String.eqb_eq in E. subst k'. intros H. now injection H as ->.
  - intros H. now rewrite IH.
Qed.

Lemma assign_same (sets : list (string * jsval)) (row : obj) :
  Forall (fun kv => Obj.get row (fst kv) = Some (snd kv)) sets ->
  assign sets row = row.
Proof.
  unfold assign. induction 1 as [|[k v] sets Hkv _ IH]; [reflexivity|].
  simpl in *. now rewrite (put_same row k v Hkv).
Qed.

Lemma existsb_eqb_In (k : string) (l : list string) :
  In k l -> existsb (String.eqb k) l = true.
Proof.
  intros H. apply existsb_exists. exists k. split; [exact H|apply String.eqb_refl].
Qed.

(** Assigning the payload's columns twice is assigning them once. *)
Lemma assign_update_sql_twice (data : obj) (userToken : jsval) (row : obj) :
  assign (update_sql data userToken) (assign (update_sql data userToken) row)
  = assign (update_sql data userToken) row.
Proof.
  apply assign_same. unfold update_sql at 1. apply Forall_forall.
  intros [k v] Hin. apply in_map_iff in Hin. destruct Hin as (c & Heq & Hc).
  injection Heq as <- <-. simpl. unfold update_sql.
  now rewrite get_assign, (existsb_eqb_In c _ Hc).
Qed.

Section Hits.
Variables (id : jsval) (data : obj) (userToken : jsval).

Local Abbreviation hit := (fun row : obj => sql_eq (column row "id") (to_sql id)).
Local Abbreviation write :=
  (fun row : obj => if hit row then assign (update_sql data userToken) row else row).

Lemma hit_write (row : obj) : hit (write row) = hit row.
Proof.
  simpl. destruct (sql_eq (column row "id") (to_sql id)) eqn:E; [|exact E].
  now rewrite column_update_sql_id.
Qed.

Lemma write_write (row : obj) : write (write row) = write row.
Proof.
  pose proof (hit_write row) as H. simpl in *.
  destruct (sql_eq (column row "id") (to_sql id)) eqn:E.
  - rewrite H. apply assign_update_sql_twice.
  - now rewrite E.
Qed.

Lemma filter_hit_write (rows : list obj) :
  filter hit (map write rows) = map (assign (update_sql data userToken)) (filter hit rows).
Proof.
  induction rows as [|row rows IH]; [reflexivity|].
  simpl map. simpl filter.
  pose proof (hit_write row) as H. simpl in H. rewrite H.
  destruct (sql_eq (column row "id") (to_sql id)) eqn:E; simpl; now rewrite IH.
Qed.

End Hits.

Lemma update_customers_written rejects db id data userToken :
  customers (fst (update rejects db id data userToken))
  = match Lodash.keys (updateData data userToken) with
    | [] => customers db
    | _ => map (fun row => if sql_eq (column row "id") (to_sql id)
                           then assign (update_sql data userToken) row else row)
               (customers db)
    end.
Proof.
  rewrite update_customers_table, helpers_update_sql.
  now destruct (Lodash.keys (updateData data userToken)).
Qed.

(** No update changes the id of a customer, or the number or the order of the
    customers: the [id] key of the payload is dropped, and no attribution key
    is [id]. *)
Theorem update_keeps_ids (rejects : ComplianceOverride -> bool) (db : Db)
    (id : jsval) (data : obj) (userToken : jsval) :
  map (fun row => Obj.get row "id") (customers (fst (update rejects db id data userToken)))
  = map (fun row => Obj.get row "id") (customers db).
Proof.
  rewrite update_customers_written.
  destruct (Lodash.keys (updateData data userToken)) eqn:K; [reflexivity|].
  rewrite map_map. apply map_ext. intros row.
  destruct (sql_eq (column row "id") (to_sql id)); [|reflexivity].
  apply get_update_sql_id.
Qed.

(** When the promise of [update] resolves, [getById] of the id on the store
    that the update leaves resolves with the same customer: what the
    statement returns is the row it has stored. *)
Theorem update_resolved_then_getById (rejects : ComplianceOverride -> bool) (db : Db)
    (id : jsval) (data : obj) (userToken : jsval) (c : option obj) :
  snd (update rejects db id data userToken) = Return (Resolved c) ->
  getById (fst (update rejects db id data userToken)) id = Resolved c.
Proof.
  intros H. rewrite update_outcome, helpers_update_sql in H.
  unfold getById, select_by_id in *. rewrite update_customers_written.
  destruct (Lodash.keys (updateData data userToken)) eqn:K; [discriminate H|].
  rewrite (filter_hit_write id data userToken).
  destruct (filter _ (customers db)) as [|r [|r' rows]];
    [discriminate H| |discriminate H].
  injection H as H. exact H.
Qed.

(** The same update made a second time leaves the customers table as the
    first left it and gives the same outcome; the audit table receives the
    accepted records once more. *)
Theorem update_twice (rejects : ComplianceOverride -> bool) (db : Db)
    (id : jsval) (data : obj) (userToken : jsval) :
  let db1 := fst (update rejects db id data userToken) in
  let db2 := fst (update rejects db1 id data userToken) in
  customers db2 = customers db1 /\
  snd (update rejects db1 id data userToken) = snd (update rejects db id data userToken) /\
  compliance_overrides db2
  = compliance_overrides db1
    ++ filter (fun o => negb (rejects o)) (overrides id (updateData data userToken) userToken).
Proof.
  cbv zeta. split; [|split].
  - rewrite (update_customers_written rejects (fst (update rejects db id data userToken))).
    rewrite (update_customers_written rejects db).
    destruct (Lodash.keys (updateData data userToken)) eqn:K; [reflexivity|].
    rewrite map_map. apply map_ext. intros row.
    apply (write_write id data userToken).
  - rewrite !update_outcome, helpers_update_sql.
    unfold select_by_id. rewrite update_customers_written.
    destruct (Lodash.keys (updateData data userToken)) eqn:K; [reflexivity|].
    rewrite (filter_hit_write id data userToken), map_map.
    do 3 f_equal. apply map_ext. intros row. apply assign_update_sql_twice.
  - rewrite update_overrides_table.
    now destruct (addComplianceOverrides_tables rejects
                    (fst (update rejects db id data userToken)) id
                    (updateData data userToken) userToken) as (_ & _ & _ & _ & ->).
Qed.

Lemma addOverrideUser_empty (userToken : jsval) : addOverrideUser [] userToken = [].
Proof. unfold addOverrideUser. now destruct (truthy userToken). Qed.

(** An update whose payload is empty once normalized throws before any
    statement is run: the store is left as it was, audit table included. *)
Theorem update_empty_payload_throws (rejects : ComplianceOverride -> bool) (db : Db)
    (id : jsval) (data : obj) (userToken : jsval) :
  formattedData data = [] ->
  update rejects db id data userToken = (db, Throw NoColumnsError).
Proof.
  intros Hempty. unfold update, updateData.
  rewrite Hempty, addOverrideUser_empty. reflexivity.
Qed.

(** ** The promise of the audit writes *)

Lemma snd_add_each (rejects : ComplianceOverride -> bool) (l : list ComplianceOverride) :
  forall db,
    snd (add_each rejects db l)
    = map (fun o => if rejects o then Rejected StoreError else Resolved o) l.
Proof.
  induction l as [|o l IH]; intros db; [reflexivity|].
  simpl. unfold complianceOverrides_add.
  destruct (rejects o).
  - specialize (IH db). destruct (add_each rejects db l). simpl in *. now rewrite IH.
  - match goal with |- context [add_each rejects ?d l] => specialize (IH d);
      destruct (add_each rejects d l) end.
    simpl in *. now rewrite IH.
Qed.

Lemma all_accepted (rejects : ComplianceOverride -> bool) (l : list ComplianceOverride) :
  existsb rejects l = false ->
  all (map (fun o => if rejects o then Rejected StoreError else Resolved o) l) = Resolved l.
Proof.
  induction l as [|o l IH]; [reflexivity|].
  simpl. intros H. apply orb_false_iff in H. destruct H as [Ho Hl].
  now rewrite Ho, (IH Hl).
Qed.

Lemma all_one_rejected (rejects : ComplianceOverride -> bool) (l : list ComplianceOverride) :
  existsb rejects l = true ->
  all (map (fun o => if rejects o then Rejected StoreError else Resolved o) l)
  = Rejected StoreError.
Proof.
  induction l as [|o l IH]; [discriminate|].
  simpl. destruct (rejects o); [reflexivity|].
  simpl. intros H. now rewrite (IH H).
Qed.

(** The promise of [addComplianceOverrides] resolves with the overrides when
    the store accepts them all and is rejected when the store rejects one;
    either way every override that the store accepts is in the audit table:
    a rejected write neither stops nor undoes the others. *)
Theorem addComplianceOverrides_no_rollback (rejects : ComplianceOverride -> bool)
    (db : Db) (id : jsval) (customer : obj) (userToken : jsval) :
  let r := addComplianceOverrides rejects db id customer userToken in
  let saved := overrides id customer userToken in
  (existsb rejects saved = false -> snd r = Resolved saved) /\
  (existsb rejects saved = true -> snd r = Rejected StoreError) /\
  compliance_overrides (fst r)
  = compliance_overrides db ++ filter (fun o => negb (rejects o)) saved.
Proof.
  cbv zeta.
  assert (Hsnd : snd (addComplianceOverrides rejects db id customer userToken)
                 = all (map (fun o => if rejects o then Rejected StoreError else Resolved o)
                            (overrides id customer userToken))).
  { unfold addComplianceOverrides.
    pose proof (snd_add_each rejects (overrides id customer userToken) db) as H.
    destruct (add_each rejects db (overrides id customer userToken)). simpl in *.
    now rewrite H. }
  rewrite Hsnd. split; [|split].
  - apply all_accepted.
  - apply all_one_rejected.
  - now destruct (addComplianceOverrides_tables rejects db id customer userToken)
      as (_ & _ & _ & _ & ->).
Qed.

(** ** One more transaction *)

(** A transaction of the customer created after [now() - interval '1 day'],
    the instant the store takes for one day before its clock, adds exactly
    its fiat amount to the daily volume, in either table; a transaction of
    another customer changes nothing. *)
Theorem getDailyVolume_new_transaction (db : Db) (id : jsval) (new : Tx) :
  exists v,
    getDailyVolume db id = Resolved v /\
    (in_last_day (now db) id new = true ->
     let amount := match fiat new with Some a => a | None => 0%Qc end in
     getDailyVolume (with_cash_in db (new :: cash_in_txs db)) id = Resolved (amount + v)%Qc /\
     getDailyVolume (with_cash_out db (new :: cash_out_txs db)) id = Resolved (amount + v)%Qc) /\
    (sql_eq (customer_id new) (to_sql id) = false ->
     getDailyVolume (with_cash_in db (new :: cash_in_txs db)) id = Resolved v /\
     getDailyVolume (with_cash_out db (new :: cash_out_txs db)) id = Resolved v).
Proof.
  eexists. split; [apply getDailyVolume_total|]. split.
  - intros Hin. cbv zeta. rewrite !getDailyVolume_total.
    cbn [with_cash_in with_cash_out cash_in_txs cash_out_txs now].
    rewrite !total_after_cons, Hin.
    split; f_equal; ring.
  - intros Hother. rewrite !getDailyVolume_total.
    cbn [with_cash_in with_cash_out cash_in_txs cash_out_txs now].
    rewrite !total_after_cons. unfold in_last_day. rewrite Hother.
    split; reflexivity.
Qed.

(** ** Null keys *)

Lemma sql_eq_null (a key : jsval) : nullish key = true -> sql_eq a (to_sql key) = false.
Proof. destruct key; try discriminate; intros _; now destruct a. Qed.

Lemma filter_none {A : Type} (f : A -> bool) (l : list A) :
  (forall x, f x = false) -> filter f l = [].
Proof.
  intros H. induction l as [|x l IH]; [reflexivity|]. simpl. now rewrite H.
Qed.

(** A key that is [null] or [undefined] matches no customer, whatever the
    table holds: [get] and [getById] resolve with nothing, and [update]
    changes no row. *)
Theorem null_key_matches_nothing (db : Db) (key : jsval) :
  nullish key = true ->
  get db key = Resolved None /\
  getById db key = Resolved None /\
  forall rejects data userToken,
    customers (fst (update rejects db key data userToken)) = customers db.
Proof.
  intros Hnull. split; [|split].
  - unfold get, select_by_phone.
    rewrite filter_none by (intros c; now apply sql_eq_null). reflexivity.
  - unfold getById, select_by_id.
    rewrite filter_none by (intros c; now apply sql_eq_null). reflexivity.
  - intros rejects data userToken. rewrite update_customers_written.
    destruct (Lodash.keys (updateData data userToken)); [reflexivity|].
    rewrite <- (map_id (customers db)) at 2. apply map_ext.
    intros row. now rewrite sql_eq_null.
Qed.

(** ** The most recent customers *)

Lemma Permutation_insert_desc (row : obj) (l : list obj) :
  Permutation (insert_desc row l) (row :: l).
Proof.
  induction l as [|r l IH]; simpl; [reflexivity|].
  destruct (created_desc row r); [reflexivity|].
  rewrite IH. apply perm_swap.
Qed.

Lemma Permutation_order_by_created_desc (l : list obj) :
  Permutation (order_by_created_desc l) l.
Proof.
  induction l as [|r l IH]; simpl; [reflexivity|].
  rewrite Permutation_insert_desc. now constructor.
Qed.

Lemma sorted_app_cross {A : Type} (R : A -> A -> Prop) (l1 l2 : list A) :
  StronglySorted R (l1 ++ l2) ->
  forall a b, In a l1 -> In b l2 -> R a b.
Proof.
  induction l1 as [|x l1 IH]; simpl; intros Hs a b Ha Hb; [contradiction|].
  inversion Hs as [|? ? Hs' Hx]; subst.
  destruct Ha as [<-|Ha].
  - rewrite Forall_forall in Hx. apply Hx. apply in_or_app. now right.
  - now apply IH.
Qed.

Lemma firstn_full_or_all {A : Type} (n : nat) (l : list A) :
  skipn n l = [] \/ List.length (firstn n l) = n.
Proof.
  destruct (Nat.le_gt_cases (List.length l) n) as [H|H].
  - left. now apply skipn_all2.
  - right. apply firstn_length_le. lia.
Qed.

(** The customers that [batch] returns are the most recent ones: the rows it
    formats and the rows it leaves out make up the customers other than the
    anonymous one, no row left out was created later than a row returned,
    and rows are left out only when 20 are returned. *)
Theorem batch_most_recent (db : Db) (l : list obj) :
  batch db = Resolved l ->
  exists rows rest,
    Forall2 (fun row c => format row = Return c) rows l /\
    Permutation (rows ++ rest)
      (filter (fun c => sql_neq (column c "id") (VStr anonymous_uuid)) (customers db)) /\
    (forall a b, In a rows -> In b rest -> created_desc a b = true) /\
    (rest = [] \/ List.length rows = 20%nat).
Proof.
  unfold batch, db_any, then_.
  destruct (map_format _) as [l'|] eqn:E; [|discriminate].
  intros H. injection H as ->.
  set (sorted := order_by_created_desc
                   (filter (fun c => sql_neq (column c "id") (VStr anonymous_uuid))
                           (customers db))) in *.
  exists (firstn NUM_RESULTS sorted), (skipn NUM_RESULTS sorted).
  split; [|split; [|split]].
  - now apply map_format_Forall2.
  - rewrite firstn_skipn. apply Permutation_order_by_created_desc.
  - apply (sorted_app_cross (fun a b => created_desc a b = true)).
    rewrite firstn_skipn. apply order_by_created_desc_sorted.
  - apply firstn_full_or_all.
Qed.

(** ** A new customer *)

Lemma get_new_customer (clock : Z) (id phone : jsval) (k : string) :
  Obj.get (new_customer clock id phone) k
  = if (k =? "phone_at")%string then Some (VDate clock)
    else if (k =? "phone")%string then Some (to_sql phone)
    else if (k =? "id")%string then Some (to_sql id)
    else Obj.get (column_defaults clock) k.
Proof.
  unfold new_customer, assign. simpl fold_left.
  destruct (k =? "phone_at")%string eqn:E1.
  - apply String.eqb_eq in E1. subst k. apply get_put_eq.
  - apply String.eqb_neq in E1. rewrite get_put_neq by congruence.
    destruct (k =? "phone")%string eqn:E2.
    + apply String.eqb_eq in E2. subst k. apply get_put_eq.
    + apply String.eqb_neq in E2. rewrite get_put_neq by congruence.
      destruct (k =? "id")%string eqn:E3.
      * apply String.eqb_eq in E3. subst k. apply get_put_eq.
      * apply String.eqb_neq in E3. now rewrite get_put_neq by congruence.
Qed.

Lemma select_by_id_add (uuid : string) (db : Db) (row : obj) :
  column row "id" = VStr uuid ->
  select_by_id db (VStr uuid) = [] ->
  select_by_id (with_customers db (customers db ++ [row])) (VStr uuid) = [row].
Proof.
  unfold select_by_id. intros Hid Hnone. simpl customers.
  rewrite filter_app, Hnone. simpl. rewrite Hid. simpl.
  now rewrite String.eqb_refl.
Qed.

(** A customer that [add] has stored is found by [getById] under the id that
    was drawn for it, provided no customer held that id: the row has the id,
    the phone given and the clock's time as [phone_at], so [format] does not
    throw on it; and its status is "Phone" when the schema leaves the other
    three milestones null. *)
Theorem add_then_getById (uuid : string) (db : Db) (customer : obj) :
  let row := new_customer (now db) (VStr uuid) (prop customer "phone") in
  violates (customers db) row = false ->
  select_by_id db (VStr uuid) = [] ->
  exists c,
    add uuid db customer = (with_customers db (customers db ++ [row]), Resolved row) /\
    prop row "id" = VStr uuid /\
    prop row "phone" = to_sql (prop customer "phone") /\
    prop row "phone_at" = VDate (now db) /\
    format row = Return c /\
    getById (fst (add uuid db customer)) (VStr uuid) = Resolved (Some c) /\
    ((forall k, In k ["id_card_at"; "front_facing_cam_at"; "id_card_image_at"] ->
        nullish (prop (column_defaults (now db)) k) = true) ->
     c = camelize (Obj.put row "status" (VStr "Phone"))).
Proof.
  cbv zeta. intros Hok Hfresh.
  set (row := new_customer (now db) (VStr uuid) (prop customer "phone")) in *.
  assert (Hid : prop row "id" = VStr uuid)
    by (unfold prop, row; now rewrite get_new_customer).
  assert (Hat : prop row "phone_at" = VDate (now db))
    by (unfold prop, row; now rewrite get_new_customer).
  assert (Hadd : add uuid db customer
                 = (with_customers db (customers db ++ [row]), Resolved row)).
  { unfold add. fold row. now rewrite Hok. }
  destruct (format_returns row) as [c Hc].
  { constructor. simpl. now rewrite Hat. }
  exists c. repeat split; auto.
  - unfold prop, row. now rewrite get_new_customer.
  - rewrite Hadd. simpl fst. unfold getById.
    rewrite (select_by_id_add uuid db row); [|unfold column; now rewrite Hid|exact Hfresh].
    simpl. now rewrite Hc.
  - intros Hnull.
    assert (Hk : forall k, In k ["id_card_at"; "front_facing_cam_at"; "id_card_image_at"] ->
                   nullish (prop row k) = true).
    { intros k Hin. rewrite <- (Hnull k Hin). f_equal.
      unfold prop, row. rewrite get_new_customer.
      simpl in Hin. destruct Hin as [<-|[<-|[<-|[]]]]; reflexivity. }
    assert (E : format row = Return (camelize (Obj.put row "status" (VStr "Phone")))).
    { unfold format, maxBy, milestones. simpl. rewrite Hat. simpl.
      rewrite (Hk "id_card_at"), (Hk "front_facing_cam_at"), (Hk "id_card_image_at");
        simpl; auto. }
    congruence.
Qed.

(** A customer that [add] has stored with a phone no customer held is found
    by [get] under that phone, with the id that was drawn for it and the
    daily volume of that id. *)
Theorem add_then_get (uuid : string) (db : Db) (customer : obj) (phone : string) :
  prop customer "phone" = VStr phone ->
  violates (customers db) (new_customer (now db) (VStr uuid) (VStr phone)) = false ->
  filter (fun c => sql_eq (column c "phone") (VStr phone)) (customers db) = [] ->
  exists r v,
    get (fst (add uuid db customer)) (VStr phone) = Resolved (Some r) /\
    Obj.get r "id" = Some (Plain (VStr uuid)) /\
    Obj.get r "phone" = Some (Plain (VStr phone)) /\
    getDailyVolume db (VStr uuid) = Resolved v /\
    Obj.get r "dailyVolume" = Some (BigNumber v).
Proof.
  intros Hphone Hok Hfresh.
  set (row := new_customer (now db) (VStr uuid) (VStr phone)) in *.
  assert (Hid : column row "id" = VStr uuid)
    by (unfold column, prop, row; now rewrite get_new_customer).
  assert (Hph : column row "phone" = VStr phone)
    by (unfold column, prop, row; now rewrite get_new_customer).
  set (v := (total_after (day_before (now db)) (VStr uuid) (cash_in_txs db)
             + total_after (day_before (now db)) (VStr uuid) (cash_out_txs db))%Qc).
  exists (Lodash.set "dailyVolume" (BigNumber v)
            (plain [("id", VStr uuid); ("phone", VStr phone)])), v.
  split; [|repeat split; apply getDailyVolume_total].
  unfold add. rewrite Hphone. fold row. rewrite Hok. simpl fst.
  unfold get, select_by_phone. simpl customers. simpl to_sql.
  rewrite filter_app, Hfresh. simpl filter. rewrite Hph.
  cbn [sql_eq]. rewrite String.eqb_refl.
  cbn [app map db_oneOrNone then_promise]. rewrite Hid, Hph.
  change (prop [("id", VStr uuid); ("phone", VStr phone)] "id") with (VStr uuid).
  now rewrite getDailyVolume_total.
Qed.

(** ** The columns of a formatted customer *)

Lemma get_not_in {V : Type} (o : Obj.t V) (k : string) :
  ~ In k (Lodash.keys o) -> Obj.get o k = None.
Proof.
  unfold Lodash.keys. induction o as [|[k' v] o IH]; simpl; [reflexivity|].
  intros Hnot. destruct (k =? k')%string eqn:E.
  - apply String.eqb_eq in E. subst k'. exfalso. apply Hnot. now left.
  - apply IH. intros Hin. apply Hnot. now right.
Qed.

Lemma In_keys_put {V : Type} (o : Obj.t V) (k k' : string) (v : V) :
  In k' (Lodash.keys (Obj.put o k v)) <-> k' = k \/ In k' (Lodash.keys o).
Proof.
  unfold Lodash.keys. induction o as [|[k0 v0] o IH]; simpl.
  - split; intros [H|H]; auto.
  - destruct (k =? k0)%string eqn:E; simpl.
    + apply String.eqb_eq in E. subst k0.
      split; [intros [H|H]|intros [H|[H|H]]]; auto.
    + rewrite IH. prop_tauto.
Qed.

Lemma NoDup_keys_put {V : Type} (o : Obj.t V) (k : string) (v : V) :
  NoDup (Lodash.keys o) -> NoDup (Lodash.keys (Obj.put o k v)).
Proof.
  induction o as [|[k0 v0] o IH]; intros Hnd.
  - simpl. constructor; [intros []|constructor].
  - simpl. inversion Hnd as [|? ? Hnot Hnd']; subst.
    destruct (k =? k0)%string eqn:E.
    + apply String.eqb_eq in E. subst k0. simpl. now constructor.
    + simpl. constructor; [|now apply IH].
      intros Hin. apply (In_keys_put o k k0 v) in Hin.
      destruct Hin as [->|Hin]; [|contradiction].
      now rewrite String.eqb_refl in E.
Qed.

(** Reading a remapped key, when the object has distinct keys and no other
    key of it has the same image. *)
Lemma get_mapKeys_from {V : Type} (f : string -> string) (o acc : Obj.t V) (k : string) :
  NoDup (Lodash.keys o) ->
  (forall k', In k' (Lodash.keys o) -> f k' = f k -> k' = k) ->
  Obj.get (fold_left (fun result kv => Obj.put result (f (fst kv)) (snd kv)) o acc) (f k)
  = match Obj.get o k with
    | Some v => Some v
    | None => Obj.get acc (f k)
    end.
Proof.
  revert acc. induction o as [|[k0 v0] o IH]; intros acc Hnd Hinj; [reflexivity|].
  simpl in Hnd. inversion Hnd as [|? ? Hnot Hnd']; subst.
  simpl fold_left. rewrite IH; [|exact Hnd'|intros k' Hk'; apply Hinj; now right].
  simpl Obj.get. destruct (k =? k0)%string eqn:E.
  - apply String.eqb_eq in E. subst k0.
    rewrite (get_not_in o k Hnot). apply get_put_eq.
  - destruct (Obj.get o k); [reflexivity|].
    apply get_put_neq. intros Heq.
    apply String.eqb_neq in E. apply E. symmetry. apply Hinj; [now left|exact Heq].
Qed.

(** A formatted customer keeps the scalar columns of its row.  For a row
    whose values are scalars or Dates, as the rows of this development are
    (a json or array column, into which [camelize] walks, is not covered):
    under the camel-case form of a key that no other key shares, the
    formatted customer holds the status, for [status], and otherwise what the
    row holds under the key. *)
Theorem format_keeps_columns (customer c : obj) :
  format customer = Return c ->
  NoDup (Lodash.keys customer) ->
  exists status,
    In status ["Phone"; "ID card"; "Front facing camera"; "ID card image"] /\
    forall k,
      (forall k', k' = "status" \/ In k' (Lodash.keys customer) ->
                  camelCase k' = camelCase k -> k' = k) ->
      Obj.get c (camelCase k)
      = if (k =? "status")%string then Some (VStr status) else Obj.get customer k.
Proof.
  intros Hformat Hnd.
  unfold format in Hformat.
  destruct (maxBy value (milestones customer)) as [m|] eqn:E; [|discriminate].
  injection Hformat as <-. exists (label m). split.
  - apply baseExtremum_In in E. destruct E as [E|[c' E]]; [|discriminate].
    change ["Phone"; "ID card"; "Front facing camera"; "ID card image"]
      with (map label (milestones customer)).
    now apply in_map.
  - intros k Hinj. unfold camelize, Lodash.mapKeys.
    rewrite get_mapKeys_from.
    + destruct (k =? "status")%string eqn:Ek.
      * apply String.eqb_eq in Ek. subst k. now rewrite get_put_eq.
      * apply String.eqb_neq in Ek. rewrite get_put_neq by congruence.
        now destruct (Obj.get customer k).
    + now apply NoDup_keys_put.
    + intros k' Hk'. apply Hinj. now apply In_keys_put in Hk'.
Qed.

End Customers.

(** * The functions on sample data *)

(** Two milestones share the latest timestamp: the first in order wins. *)
Example format_tie :
  format camelCase_camelize (fun _ _ => false) tie_customer
  = Return [ ("id", VStr "c1"); ("phone", VStr "+15550100"); ("created", VDate 1000);
             ("phoneAt", VDate 1000); ("idCardAt", VDate 3000);
             ("frontFacingCamAt", VDate 3000); ("idCardImageAt", VNull);
             ("status", VStr "ID card") ].
Proof. vm_compute. reflexivity. Qed.

(** [update(id, {frontFacingCamOverride: "ok"}, "user-42")]: the returned
    customer carries the override and its attribution, and one audit record
    is saved. *)
Example update_front_camera_override :
  let r := update snakeCase_letters camelCase_camelize (fun _ _ => false) (fun _ => false)
             sample_db (VStr "c1") [("frontFacingCamOverride", VStr "ok")] (VStr "user-42") in
  snd r = Return (Resolved (Some
            [ ("id", VStr "c1"); ("phone", VStr "+15550100"); ("created", VDate 1000);
              ("phoneAt", VDate 1000); ("idCardAt", VDate 3000);
              ("frontFacingCamAt", VDate 3000); ("idCardImageAt", VNull);
              ("frontFacingCamOverride", VStr "ok");
              ("frontFacingCamOverrideBy", VStr "user-42");
              ("status", VStr "ID card") ])) /\
  compliance_overrides (fst r)
  = [ {| customerId := VStr "c1"; complianceType := "front_camera";
         overrideBy := VStr "user-42"; verification := VStr "ok" |} ].
Proof. vm_compute. split; reflexivity. Qed.

(** [update(id, {idCardAt: T}, undefined)]: no attribution, no audit record. *)
Example update_without_user :
  let r := update snakeCase_letters camelCase_camelize (fun _ _ => false) (fun _ => false)
             sample_db (VStr "c1") [("idCardAt", VDate 7000)] VUndefined in
  updateData snakeCase_letters [("idCardAt", VDate 7000)] VUndefined
  = [("id_card_at", VDate 7000)] /\
  compliance_overrides (fst r) = [].
Proof. vm_compute. split; reflexivity. Qed.

(** An override without an acting user is still recorded, with no user. *)
Example update_override_without_user :
  let r := update snakeCase_letters camelCase_camelize (fun _ _ => false) (fun _ => false)
             sample_db (VStr "c1") [("smsOverride", VStr "ok")] VUndefined in
  updateData snakeCase_letters [("smsOverride", VStr "ok")] VUndefined
  = [("sms_override", VStr "ok")] /\
  compliance_overrides (fst r)
  = [ {| customerId := VStr "c1"; complianceType := "sms";
         overrideBy := VUndefined; verification := VStr "ok" |} ].
Proof. vm_compute. split; reflexivity. Qed.

(** [update] of an id that no customer has: the promise is rejected, and a
    store that accepts the audit write has saved the record all the same. *)
Example update_unknown_id :
  let r := update snakeCase_letters camelCase_camelize (fun _ _ => false) (fun _ => false)
             sample_db unknown_id [("smsOverride", VStr "ok")] (VStr "user-42") in
  snd r = Return (Rejected QueryResultError_noData) /\
  compliance_overrides (fst r)
  = [ {| customerId := unknown_id; complianceType := "sms";
         overrideBy := VStr "user-42"; verification := VStr "ok" |} ].
Proof. vm_compute. split; reflexivity. Qed.

(** [update] with an empty payload throws before any statement is run. *)
Example update_empty_payload :
  snd (update snakeCase_letters camelCase_camelize (fun _ _ => false) (fun _ => false)
         sample_db (VStr "c1") [("id", VStr "c9")] VUndefined)
  = Throw NoColumnsError.
Proof. reflexivity. Qed.

(** Cash-ins of 10 and 5 and a cash-out of 3 in the last day, a cash-in of
    100 two days ago: 18. *)
Example getDailyVolume_sample :
  getDailyVolume day_of_24_hours sample_db (VStr "c1") = Resolved (Q2Qc (inject_Z 18)).
Proof. vm_compute. reflexivity. Qed.

Example getDailyVolume_no_transactions :
  getDailyVolume day_of_24_hours sample_db (VStr "c7") = Resolved (Q2Qc 0).
Proof. vm_compute. reflexivity. Qed.

Example get_unknown_phone : get day_of_24_hours sample_db (VStr "+15550199") = Resolved None.
Proof. reflexivity. Qed.

Example getById_sample :
  getById camelCase_camelize (fun _ _ => false) sample_db (VStr "c2")
  = Resolved (Some
      [ ("id", VStr "c2"); ("phone", VStr "+15550101"); ("created", VDate 2000);
        ("phoneAt", VDate 2000); ("idCardAt", VDate 4000);
        ("frontFacingCamAt", VNull); ("idCardImageAt", VDate 5000);
        ("status", VStr "ID card image") ]).
Proof. vm_compute. reflexivity. Qed.

Example getById_unknown :
  getById camelCase_camelize (fun _ _ => false) sample_db unknown_id = Resolved None.
Proof. reflexivity. Qed.

(** The later customer comes first; the anonymous customer is left out. *)
Example batch_sample :
  batch camelCase_camelize (fun _ _ => false) "c1" sample_db
  = Resolved
      [ [ ("id", VStr "c2"); ("phone", VStr "+15550101"); ("created", VDate 2000);
          ("phoneAt", VDate 2000); ("idCardAt", VDate 4000);
          ("frontFacingCamAt", VNull); ("idCardImageAt", VDate 5000);
          ("status", VStr "ID card image") ] ].
Proof. vm_compute. reflexivity. Qed.

Example getById_bare :
  getById camelCase_camelize (fun _ _ => false) bare_db (VStr "c4") = Rejected TypeError.
Proof. reflexivity. Qed.

(** * The claims on sample data *)

(** Counterexample to C5 as stated: the [id_card_photo_at] of this customer
    is strictly later than its other timestamps, and its status is "Phone",
    not "ID card image", whatever the key casing and the coerced
    comparison. *)
Lemma id_card_photo_at_not_read :
  prop photo_customer "id_card_photo_at" = VDate 2000 /\
  (forall k t,
     In k ["phone_at"; "id_card_at"; "front_facing_cam_at"; "id_card_image_at"] ->
     prop photo_customer k = VDate t -> t < 2000) /\
  forall camelCase gt_coerced,
    format camelCase gt_coerced photo_customer
    = Return (camelize camelCase (Obj.put photo_customer "status" (VStr "Phone"))) /\
    format camelCase gt_coerced photo_customer
    <> Return (camelize camelCase (Obj.put photo_customer "status" (VStr "ID card image"))).
Proof.
  split; [reflexivity|]. split.
  - intros k t [<-|[<-|[<-|[<-|[]]]]]; cbn; intros H;
      try discriminate H; injection H as <-; lia.
  - intros camelCase gt_coerced.
    assert (E : format camelCase gt_coerced photo_customer
                = Return (camelize camelCase
                            (Obj.put photo_customer "status" (VStr "Phone"))))
      by reflexivity.
    split; [exact E|]. rewrite E. intros H. injection H as H.
    apply (f_equal (fun o => Obj.get o (camelCase "status"))) in H.
    unfold camelize, Lodash.mapKeys in H. cbn in H.
    rewrite !get_put_eq in H. discriminate H.
Qed.


(** The hypotheses of [format_id_card_image_latest] hold of a customer whose
    [id_card_image_at] is the latest. *)
Lemma format_id_card_image_latest_witness :
  prop image_customer "id_card_image_at" = VDate 5000 /\
  format camelCase_camelize (fun _ _ => false) image_customer
  = Return (camelize camelCase_camelize
              (Obj.put image_customer "status" (VStr "ID card image"))).
Proof.
  split; [reflexivity|].
  apply (format_id_card_image_latest camelCase_camelize (fun _ _ => false)
           image_customer 5000); [reflexivity|].
  intros k [<-|[<-|[<-|[]]]].
  - right. exists 2000. split; [reflexivity|lia].
  - right. exists 4000. split; [reflexivity|lia].
  - left. reflexivity.
Defined.

(** The hypothesis of [update_missing_id_fails] holds of the sample store and
    an id it does not know. *)
Lemma update_missing_id_fails_witness :
  select_by_id sample_db unknown_id = [] /\
  (snd (update snakeCase_letters camelCase_camelize (fun _ _ => false) (fun _ => false)
          sample_db unknown_id [("smsOverride", VStr "ok")] (VStr "user-42"))
   = Throw NoColumnsError \/
   snd (update snakeCase_letters camelCase_camelize (fun _ _ => false) (fun _ => false)
          sample_db unknown_id [("smsOverride", VStr "ok")] (VStr "user-42"))
   = Return (Rejected QueryResultError_noData)).
Proof.
  split; [reflexivity|].
  apply update_missing_id_fails. reflexivity.
Defined.

(** The hypothesis of [all_null_milestones_fail] holds of a customer without
    milestones, alone in its store. *)
Lemma all_null_milestones_fail_witness :
  (forall k,
     In k ["phone_at"; "id_card_at"; "front_facing_cam_at"; "id_card_image_at"] ->
     nullish (prop bare_customer k) = true) /\
  format camelCase_camelize (fun _ _ => false) bare_customer = Throw TypeError /\
  getById camelCase_camelize (fun _ _ => false) bare_db (VStr "c4") = Rejected TypeError /\
  batch camelCase_camelize (fun _ _ => false) "anonymous" bare_db = Rejected TypeError /\
  snd (update snakeCase_letters camelCase_camelize (fun _ _ => false) (fun _ => false)
         bare_db (VStr "c4") [("phone", VStr "+15550104")] VUndefined)
  = Return (Rejected TypeError).
Proof.
  assert (H : forall k,
            In k ["phone_at"; "id_card_at"; "front_facing_cam_at"; "id_card_image_at"] ->
            nullish (prop bare_customer k) = true).
  { intros k [<-|[<-|[<-|[<-|[]]]]]; reflexivity. }
  split; [exact H|].
  destruct (all_null_milestones_fail snakeCase_letters camelCase_camelize
              (fun _ _ => false) "anonymous" bare_customer H)
    as (Hformat & HgetById & Hbatch & _).
  split; [exact Hformat|]. split; [|split].
  - apply HgetById. reflexivity.
  - apply Hbatch; [now left|reflexivity|unfold NUM_RESULTS; cbn; lia].
  - reflexivity.
Defined.

(** The hypothesis of [format_status_is_a_label] holds of a customer with
    milestones. *)
Lemma format_status_is_a_label_witness :
  format camelCase_camelize (fun _ _ => false) tie_customer
  = Return (camelize camelCase_camelize (Obj.put tie_customer "status" (VStr "ID card"))) /\
  exists status,
    In status ["Phone"; "ID card"; "Front facing camera"; "ID card image"] /\
    camelize camelCase_camelize (Obj.put tie_customer "status" (VStr "ID card"))
    = camelize camelCase_camelize (Obj.put tie_customer "status" (VStr status)).
Proof.
  split; [reflexivity|].
  apply (format_status_is_a_label camelCase_camelize (fun _ _ => false) tie_customer).
  reflexivity.
Defined.

(** * Further properties on sample data *)

(** A new customer gets the id drawn for it, the phone given and the clock's
    time; a second customer with the same phone is refused by the sample
    schema. *)
Example add_sample :
  snd (add sample_defaults sample_violates "c5" sample_db [("phone", VStr "+15550105")])
  = Resolved [ ("id", VStr "c5"); ("phone", VStr "+15550105");
               ("created", VDate 172800000); ("phone_at", VDate 172800000);
               ("id_card_at", VNull); ("front_facing_cam_at", VNull);
               ("id_card_image_at", VNull) ] /\
  add sample_defaults sample_violates "c5" sample_db [("phone", VStr "+15550100")]
  = (sample_db, Rejected StoreError).
Proof. split; reflexivity. Qed.

(** The hypothesis of [update_resolved_then_getById] holds of an update of a
    customer of the sample store. *)
Lemma update_resolved_then_getById_witness :
  let c := Some [ ("id", VStr "c1"); ("phone", VStr "+15550100"); ("created", VDate 1000);
                  ("phoneAt", VDate 1000); ("idCardAt", VDate 3000);
                  ("frontFacingCamAt", VDate 3000); ("idCardImageAt", VNull);
                  ("smsOverride", VStr "ok"); ("smsOverrideBy", VStr "user-42");
                  ("status", VStr "ID card") ] in
  snd (update snakeCase_letters camelCase_camelize (fun _ _ => false) (fun _ => false)
         sample_db (VStr "c1") [("smsOverride", VStr "ok")] (VStr "user-42"))
  = Return (Resolved c) /\
  getById camelCase_camelize (fun _ _ => false)
    (fst (update snakeCase_letters camelCase_camelize (fun _ _ => false)
            (fun _ => false) sample_db (VStr "c1")
            [("smsOverride", VStr "ok")] (VStr "user-42")))
    (VStr "c1")
  = Resolved c.
Proof.
  cbv zeta.
  assert (H : snd (update snakeCase_letters camelCase_camelize (fun _ _ => false)
                     (fun _ => false) sample_db (VStr "c1")
                     [("smsOverride", VStr "ok")] (VStr "user-42"))
              = Return (Resolved (Some
                  [ ("id", VStr "c1"); ("phone", VStr "+15550100"); ("created", VDate 1000);
                    ("phoneAt", VDate 1000); ("idCardAt", VDate 3000);
                    ("frontFacingCamAt", VDate 3000); ("idCardImageAt", VNull);
                    ("smsOverride", VStr "ok"); ("smsOverrideBy", VStr "user-42");
                    ("status", VStr "ID card") ])))
    by (vm_compute; reflexivity).
  split; [exact H|].
  exact (update_resolved_then_getById snakeCase_letters camelCase_camelize
           (fun _ _ => false) (fun _ => false) sample_db (VStr "c1")
           [("smsOverride", VStr "ok")] (VStr "user-42") _ H).
Defined.

(** The hypothesis of [update_empty_payload_throws] holds of a payload that
    names the id only. *)
Lemma update_empty_payload_throws_witness :
  formattedData snakeCase_letters [("id", VStr "c9")] = [] /\
  update snakeCase_letters camelCase_camelize (fun _ _ => false) (fun _ => true)
    sample_db (VStr "c1") [("id", VStr "c9")] (VStr "user-42")
  = (sample_db, Throw NoColumnsError).
Proof.
  split; [reflexivity|].
  apply update_empty_payload_throws. reflexivity.
Defined.

(** The hypothesis of [null_key_matches_nothing] holds of [undefined]. *)
Lemma null_key_matches_nothing_witness :
  nullish VUndefined = true /\
  get day_of_24_hours bare_db VUndefined = Resolved None /\
  getById camelCase_camelize (fun _ _ => false) bare_db VUndefined = Resolved None /\
  forall rejects data userToken,
    customers (fst (update snakeCase_letters camelCase_camelize (fun _ _ => false)
                      rejects bare_db VUndefined data userToken))
    = customers bare_db.
Proof.
  split; [reflexivity|].
  exact (null_key_matches_nothing snakeCase_letters camelCase_camelize
           (fun _ _ => false) day_of_24_hours bare_db VUndefined eq_refl).
Defined.

(** The hypothesis of [batch_most_recent] holds of the sample store, with
    customer c1 as the anonymous one. *)
Lemma batch_most_recent_witness :
  let l := [ [ ("id", VStr "c2"); ("phone", VStr "+15550101"); ("created", VDate 2000);
               ("phoneAt", VDate 2000); ("idCardAt", VDate 4000);
               ("frontFacingCamAt", VNull); ("idCardImageAt", VDate 5000);
               ("status", VStr "ID card image") ] ] in
  batch camelCase_camelize (fun _ _ => false) "c1" sample_db = Resolved l /\
  exists rows rest,
    Forall2 (fun row c => format camelCase_camelize (fun _ _ => false) row = Return c)
            rows l /\
    Permutation (rows ++ rest)
      (filter (fun c => sql_neq (column c "id") (VStr "c1")) (customers sample_db)) /\
    (forall a b, In a rows -> In b rest -> created_desc a b = true) /\
    (rest = [] \/ List.length rows = 20%nat).
Proof.
  cbv zeta.
  split; [reflexivity|].
  apply (batch_most_recent camelCase_camelize (fun _ _ => false) "c1" sample_db).
  reflexivity.
Defined.

(** The hypotheses of [add_then_getById] hold of a new customer of the sample
    store under the sample schema. *)
Lemma add_then_getById_witness :
  let row := new_customer sample_defaults (now sample_db) (VStr "c5") (VStr "+15550105") in
  sample_violates (customers sample_db) row = false /\
  select_by_id sample_db (VStr "c5") = [] /\
  exists c,
    add sample_defaults sample_violates "c5" sample_db [("phone", VStr "+15550105")]
    = (with_customers sample_db (customers sample_db ++ [row]), Resolved row) /\
    prop row "id" = VStr "c5" /\
    prop row "phone" = VStr "+15550105" /\
    prop row "phone_at" = VDate (now sample_db) /\
    format camelCase_camelize (fun _ _ => false) row = Return c /\
    getById camelCase_camelize (fun _ _ => false)
      (fst (add sample_defaults sample_violates "c5" sample_db
              [("phone", VStr "+15550105")])) (VStr "c5")
    = Resolved (Some c) /\
    ((forall k, In k ["id_card_at"; "front_facing_cam_at"; "id_card_image_at"] ->
        nullish (prop (sample_defaults (now sample_db)) k) = true) ->
     c = camelize camelCase_camelize (Obj.put row "status" (VStr "Phone"))).
Proof.
  cbv zeta.
  split; [reflexivity|]. split; [reflexivity|].
  exact (add_then_getById camelCase_camelize (fun _ _ => false) sample_defaults
           sample_violates "c5" sample_db [("phone", VStr "+15550105")]
           eq_refl eq_refl).
Defined.

(** The hypotheses of [add_then_get] hold of the same new customer. *)
Lemma add_then_get_witness :
  prop [("phone", VStr "+15550105")] "phone" = VStr "+15550105" /\
  sample_violates (customers sample_db)
    (new_customer sample_defaults (now sample_db) (VStr "c5") (VStr "+15550105")) = false /\
  filter (fun c => sql_eq (column c "phone") (VStr "+15550105")) (customers sample_db) = [] /\
  exists r v,
    get day_of_24_hours (fst (add sample_defaults sample_violates "c5" sample_db
                [("phone", VStr "+15550105")])) (VStr "+15550105")
    = Resolved (Some r) /\
    Obj.get r "id" = Some (Plain (VStr "c5")) /\
    Obj.get r "phone" = Some (Plain (VStr "+15550105")) /\
    getDailyVolume day_of_24_hours sample_db (VStr "c5") = Resolved v /\
    Obj.get r "dailyVolume" = Some (BigNumber v).
Proof.
  split; [reflexivity|]. split; [reflexivity|]. split; [reflexivity|].
  exact (add_then_get sample_defaults sample_violates day_of_24_hours "c5" sample_db
           [("phone", VStr "+15550105")] "+15550105" eq_refl eq_refl eq_refl).
Defined.

(** The hypotheses of [format_keeps_columns] hold of a sample customer. *)
Lemma format_keeps_columns_witness :
  format camelCase_camelize (fun _ _ => false) tie_customer
  = Return (camelize camelCase_camelize (Obj.put tie_customer "status" (VStr "ID card"))) /\
  NoDup (Lodash.keys tie_customer) /\
  exists status,
    In status ["Phone"; "ID card"; "Front facing camera"; "ID card image"] /\
    forall k,
      (forall k', k' = "status" \/ In k' (Lodash.keys tie_customer) ->
                  camelCase_camelize k' = camelCase_camelize k -> k' = k) ->
      Obj.get (camelize camelCase_camelize (Obj.put tie_customer "status" (VStr "ID card")))
              (camelCase_camelize k)
      = if (k =? "status")%string then Some (VStr status) else Obj.get tie_customer k.
Proof.
  assert (H : NoDup (Lodash.keys tie_customer)).
  { unfold tie_customer. simpl.
    repeat (constructor;
            [simpl; intros H;
             repeat (destruct H as [H|H]; [discriminate H|]); exact H|]).
    constructor. }
  split; [reflexivity|]. split; [exact H|].
  exact (format_keeps_columns camelCase_camelize (fun _ _ => false) tie_customer _
           eq_refl H).
Defined.

(** Counterexample to C6 as stated: in a session whose last day had 25 hours
    (the end of daylight saving), the only transaction of the customer is
    24 hours and a half old; the trailing 24 hours hold nothing of the
    customer, and [getDailyVolume] gives 10, not zero. *)
Lemma getDailyVolume_counts_older_than_24_hours :
  Forall (fun tx => now autumn_db - created tx > hours_24) (cash_in_txs autumn_db) /\
  cash_out_txs autumn_db = [] /\
  (trailing_day_total (now autumn_db) (VStr "c1") (cash_in_txs autumn_db)
   + trailing_day_total (now autumn_db) (VStr "c1") (cash_out_txs autumn_db))%Qc
  = Q2Qc 0 /\
  getDailyVolume day_of_25_hours autumn_db (VStr "c1") = Resolved (Q2Qc (inject_Z 10)) /\
  getDailyVolume day_of_25_hours autumn_db (VStr "c1") <> Resolved (Q2Qc 0).
Proof.
  split; [|split; [|split; [|split]]].
  - repeat constructor.
  - reflexivity.
  - vm_compute. reflexivity.
  - vm_compute. reflexivity.
  - intros H. vm_compute in H. discriminate H.
Qed.

(** In a session whose days have 24 hours the same transaction is left out. *)
Example getDailyVolume_day_of_24_hours :
  getDailyVolume day_of_24_hours autumn_db (VStr "c1") = Resolved (Q2Qc 0).
Proof. vm_compute. reflexivity. Qed.
